(** * ns_school_map: geocoding pipeline and client-side marker store

    A shallow embedding of the Python pipeline
    ([ns_school_mapper_interactive_v9.py], and the row loop it shares with
    v7) and of the JavaScript it embeds in the generated page, followed by
    the properties of the specification that were checked against it.

    A string is the list of the bytes of its UTF-8 text, so that a
    character below 128 is one byte and equality, concatenation and the
    substring test are those of the text.  The regular expressions and the
    cleanup of an address use the ASCII character classes ([\s], [\d],
    [\b]); there a byte above 127 is a letter of no class.  What the
    Unicode tables decide for a status or a search text ([str.strip],
    [str.lower], [trim], [toLowerCase]) is kept abstract ([PyText],
    [JsText]), with what the languages fix for ASCII text.  Floating-point
    numbers are kept abstract as well ([PyFloat], [JsNumber]): the code
    never computes with coordinates, it only stores, compares with
    [None]/NaN and prints them.  So is what pandas makes of the cache file
    ([Pandas]). *)

From Stdlib Require Import List Ascii String ZArith Lia Bool Arith DecimalString.
From stdpp Require Import base option list gmap strings.
Import ListNotations.

Local Open Scope list_scope.
Local Open Scope bool_scope.

(** ** Strings *)

Abbreviation str := (list ascii).

Definition lit (s : string) : str := list_ascii_of_string s.

Module Chars.

Definition code (c : ascii) : nat := nat_of_ascii c.

Definition between (lo hi : nat) (c : ascii) : bool :=
  (lo <=? code c)%nat && (code c <=? hi)%nat.

Definition is_digit (c : ascii) : bool := between 48 57 c.
Definition is_upper (c : ascii) : bool := between 65 90 c.
Definition is_lower (c : ascii) : bool := between 97 122 c.

(** [\w] restricted to ASCII. *)
Definition is_word (c : ascii) : bool :=
  is_digit c || is_upper c || is_lower c || Ascii.eqb c "_".

(** Python [str.isspace] (also [\s] of a [str] pattern) on ASCII:
    TAB..CR, FS..US and the blank. *)
Definition py_isspace (c : ascii) : bool :=
  between 9 13 c || between 28 32 c.

(** ECMAScript WhiteSpace and LineTerminator on ASCII. *)
Definition js_isspace (c : ascii) : bool :=
  between 9 13 c || Ascii.eqb c " ".

Definition to_lower (c : ascii) : ascii :=
  if is_upper c then ascii_of_nat (code c + 32) else c.

Definition to_upper (c : ascii) : ascii :=
  if is_lower c then ascii_of_nat (code c - 32) else c.

Definition newline : ascii := ascii_of_nat 10.

Definition cr : ascii := ascii_of_nat 13.

(** A character of ASCII, which is one byte of the text. *)
Definition is_ascii (c : ascii) : bool := (code c <? 128)%nat.

End Chars.

Module Str.

Definition eqb (a b : str) : bool := bool_decide (a = b).

(** The letters A to Z in lower case: [s.lower()] and [s.toLowerCase()]
    of a text of ASCII characters. *)
Definition lower (s : str) : str := map Chars.to_lower s.

Fixpoint lstrip_by (p : ascii -> bool) (s : str) : str :=
  match s with
  | c :: s' => if p c then lstrip_by p s' else s
  | [] => []
  end.

Definition rstrip_by (p : ascii -> bool) (s : str) : str :=
  rev (lstrip_by p (rev s)).

Definition strip_by (p : ascii -> bool) (s : str) : str :=
  rstrip_by p (lstrip_by p s).

Definition mem (c : ascii) (cs : str) : bool := existsb (Ascii.eqb c) cs.

(** The white space of ASCII taken off both ends: [s.strip()] of a text
    of ASCII characters, and the [strip] of the address cleanup. *)
Definition strip (s : str) : str := strip_by Chars.py_isspace s.

(** [s.strip(chars)] *)
Definition strip_chars (chars s : str) : str :=
  strip_by (fun c => mem c chars) s.

(** [s.trim()] of a text of ASCII characters. *)
Definition trim (s : str) : str := strip_by Chars.js_isspace s.

Fixpoint starts_with (p s : str) : bool :=
  match p, s with
  | [], _ => true
  | a :: p', b :: s' => Ascii.eqb a b && starts_with p' s'
  | _ :: _, [] => false
  end.

(** [needle in hay], [hay.includes(needle)] *)
Fixpoint contains (needle hay : str) : bool :=
  starts_with needle hay ||
  match hay with
  | [] => false
  | _ :: hay' => contains needle hay'
  end.

(** [s.replace(old, new)] for a non-empty [old]: leftmost,
    non-overlapping occurrences. *)
Fixpoint replace_fuel (n : nat) (old new s : str) : str :=
  match n with
  | O => s
  | S n' =>
      match s with
      | [] => []
      | c :: s' =>
          if starts_with old s
          then new ++ replace_fuel n' old new (drop (length old) s)
          else c :: replace_fuel n' old new s'
      end
  end.

Definition replace (old new s : str) : str :=
  replace_fuel (length s) old new s.

(** [sep.join(parts)] *)
Fixpoint join (sep : str) (parts : list str) : str :=
  match parts with
  | [] => []
  | [p] => p
  | p :: rest => p ++ sep ++ join sep rest
  end.

(** A text of ASCII characters only. *)
Definition is_ascii (s : str) : bool := forallb Chars.is_ascii s.

End Str.

(** ** Regular expressions

    The fragment of Python's [re] the source uses, with the matching
    order of a backtracking engine: alternatives left to right, greedy
    repetition, the first successful path wins. *)

Module Re.

Inductive re : Type :=
| Chr (c : ascii)
| Cls (p : ascii -> bool)
| WordB
| Seq (a b : re)
| Alt (a b : re)
| Opt (a : re)
| Star (a : re).

Definition Plus (a : re) : re := Seq a (Star a).

Fixpoint Lit (s : str) : re :=
  match s with
  | [] => Star (Cls (fun _ => false))
  | [c] => Chr c
  | c :: s' => Seq (Chr c) (Lit s')
  end.

Definition word_of (o : option ascii) : bool :=
  match o with Some c => Chars.is_word c | None => false end.

Definition chr_ok (icase : bool) (c x : ascii) : bool :=
  if icase then Ascii.eqb (Chars.to_lower c) (Chars.to_lower x)
  else Ascii.eqb c x.

Definition cls_ok (icase : bool) (p : ascii -> bool) (x : ascii) : bool :=
  if icase then p x || p (Chars.to_lower x) || p (Chars.to_upper x)
  else p x.

(** A match state is the character before the cursor and the rest of
    the subject. [k] is the continuation of the pattern. *)
Definition cont := option ascii -> str -> option (option ascii * str).

Fixpoint run (icase : bool) (r : re) (prev : option ascii) (s : str)
    (k : cont) {struct r} : option (option ascii * str) :=
  match r with
  | Chr c =>
      match s with
      | x :: s' => if chr_ok icase c x then k (Some x) s' else None
      | [] => None
      end
  | Cls p =>
      match s with
      | x :: s' => if cls_ok icase p x then k (Some x) s' else None
      | [] => None
      end
  | WordB =>
      if xorb (word_of prev) (word_of (head s)) then k prev s else None
  | Seq a b => run icase a prev s (fun p' s' => run icase b p' s' k)
  | Alt a b =>
      match run icase a prev s k with
      | Some res => Some res
      | None => run icase b prev s k
      end
  | Opt a =>
      match run icase a prev s k with
      | Some res => Some res
      | None => k prev s
      end
  | Star a =>
      (fix loop (n : nat) (prev : option ascii) (s : str) {struct n} :=
         match n with
         | O => k prev s
         | S n' =>
             match run icase a prev s
                     (fun p' s' =>
                        if (length s' <? length s)%nat
                        then loop n' p' s' else None) with
             | Some res => Some res
             | None => k prev s
             end
         end) (length s) prev s
  end.

(** The match of [r] at the cursor, if any. *)
Definition match_here (icase : bool) (r : re) (prev : option ascii)
    (s : str) : option (option ascii * str) :=
  run icase r prev s (fun p' s' => Some (p', s')).

(** [re.search(r, s)] as a truth value. *)
Fixpoint search_from (icase : bool) (r : re) (prev : option ascii)
    (s : str) : bool :=
  match match_here icase r prev s with
  | Some _ => true
  | None =>
      match s with
      | [] => false
      | c :: s' => search_from icase r (Some c) s'
      end
  end.

Definition search (icase : bool) (r : re) (s : str) : bool :=
  search_from icase r None s.

(** [r.sub(repl, s)] for a replacement without group references. *)
Fixpoint sub_fuel (n : nat) (icase : bool) (r : re) (repl : str)
    (prev : option ascii) (s : str) : str :=
  match n with
  | O =>
      match match_here icase r prev s with
      | Some _ => repl ++ s
      | None => s
      end
  | S n' =>
      match match_here icase r prev s with
      | Some (p', rest) =>
          if (length rest <? length s)%nat
          then repl ++ sub_fuel n' icase r repl p' rest
          else
            match s with
            | [] => repl
            | c :: s' => repl ++ c :: sub_fuel n' icase r repl (Some c) s'
            end
      | None =>
          match s with
          | [] => []
          | c :: s' => c :: sub_fuel n' icase r repl (Some c) s'
          end
      end
  end.

Definition sub (icase : bool) (r : re) (repl s : str) : str :=
  sub_fuel (length s) icase r repl None s.

End Re.

(** ** Text beyond ASCII

    White space and case are decided by the Unicode tables of the two
    languages, which are no part of the repository.  The classes name the
    four functions the code calls on a status or a search text and state
    what holds of them whatever the tables are: on a text of ASCII
    characters they are the functions of [Str]; a leading ASCII character
    that is no white space stays where it is under stripping, and one in
    front of any text is mapped to its ASCII lower case; a text that was
    stripped and put in lower case is left alone by a second pass; and
    lower case is taken on either side of a blank apart. *)

Class PyText := {
  (** [s.strip()] *)
  py_strip : str -> str;
  (** [s.lower()] *)
  py_lower : str -> str;
  py_strip_ascii :
    forall s, Str.is_ascii s = true -> py_strip s = Str.strip s;
  py_lower_ascii :
    forall s, Str.is_ascii s = true -> py_lower s = Str.lower s;
  py_strip_head :
    forall c rest,
      Chars.is_ascii c = true -> Chars.py_isspace c = false ->
      exists rest', py_strip (c :: rest) = c :: rest';
  py_lower_head :
    forall c rest,
      Chars.is_ascii c = true ->
      exists rest', py_lower (c :: rest) = Chars.to_lower c :: rest';
  py_lower_strip_idem :
    forall s, py_lower (py_strip (py_lower (py_strip s)))
              = py_lower (py_strip s)
}.

Class JsText := {
  (** [s.trim()] *)
  js_trim : str -> str;
  (** [s.toLowerCase()] *)
  js_toLowerCase : str -> str;
  js_trim_ascii :
    forall s, Str.is_ascii s = true -> js_trim s = Str.trim s;
  js_toLowerCase_ascii :
    forall s, Str.is_ascii s = true -> js_toLowerCase s = Str.lower s;
  js_trim_head :
    forall c rest,
      Chars.is_ascii c = true -> Chars.js_isspace c = false ->
      exists rest', js_trim (c :: rest) = c :: rest';
  js_toLowerCase_head :
    forall c rest,
      Chars.is_ascii c = true ->
      exists rest', js_toLowerCase (c :: rest) = Chars.to_lower c :: rest';
  js_toLowerCase_blank :
    forall a b,
      js_toLowerCase (a ++ lit " " ++ b)
      = js_toLowerCase a ++ lit " " ++ js_toLowerCase b
}.

(** ** Python values *)

(** Python floats. Only what the pipeline does with them: [str(x)],
    [float(text)], [pd.notna(x)], [float(int)] and [backoff * n]. *)
Class PyFloat := {
  pyfloat : Type;
  float_isnan : pyfloat -> bool;
  float_of_Z : Z -> pyfloat;
  float_of_str : str -> option pyfloat;
  float_mul : pyfloat -> pyfloat -> pyfloat;
  float_str : pyfloat -> str;
  (** [str] of a number starts with a digit, a sign, [nan] or [inf]. *)
  float_str_lead :
    forall x, exists c rest,
      float_str x = c :: rest /\
      (Chars.is_digit c || Str.mem c (lit "-ni") = true)
}.

Section PyValues.
Context `{PyFloat}.

(** The values a table cell or an argument can hold. *)
Inductive pyval : Type :=
| PyNone
| PyBool (b : bool)
| PyNum (x : pyfloat)
| PyStr (s : str).

(** [str(v)] *)
Definition py_str (v : pyval) : str :=
  match v with
  | PyNone => lit "None"
  | PyBool true => lit "True"
  | PyBool false => lit "False"
  | PyNum x => float_str x
  | PyStr s => s
  end.

(** [float(v)]; [None] stands for the [TypeError]/[ValueError]. *)
Definition py_float (v : pyval) : option pyfloat :=
  match v with
  | PyNone => None
  | PyBool b => Some (float_of_Z (if b then 1 else 0))
  | PyNum x => Some x
  | PyStr s => float_of_str s
  end.

End PyValues.

(** ** Address cleanup ([normalize_address], v9 lines 41-60) *)

Module Address.
Import Re.

Definition d : re := Cls Chars.is_digit.
Definition ws : re := Cls Chars.py_isspace.
Definition dot : re := Chr ".".

(** [\b(P\.?\s*O\.?\s*Box|PO\s*Box|Box\s+\d+)\b], [re.I] *)
Definition POBOX_PAT : re :=
  Seq WordB
    (Seq (Alt (Seq (Chr "P") (Seq (Opt dot) (Seq (Star ws)
                (Seq (Chr "O") (Seq (Opt dot) (Seq (Star ws)
                   (Lit (lit "Box"))))))))
         (Alt (Seq (Lit (lit "PO")) (Seq (Star ws) (Lit (lit "Box"))))
              (Seq (Lit (lit "Box")) (Seq (Plus ws) (Plus d)))))
       WordB).

(** [\bRR\s*\d+\b], [re.I] *)
Definition RR_PAT : re :=
  Seq WordB (Seq (Lit (lit "RR")) (Seq (Star ws) (Seq (Plus d) WordB))).

(** [\bStn\.?\b], [re.I] *)
Definition STN_PAT : re :=
  Seq WordB (Seq (Lit (lit "Stn")) (Seq (Opt dot) WordB)).

(** [\s+] *)
Definition WS_RUN : re := Plus ws.

(** [\bNS\b] *)
Definition NS_WORD : re := Seq WordB (Seq (Lit (lit "NS")) WordB).

Definition region : str := lit "Nova Scotia".
Definition country : str := lit "Canada".

(** Lines 49-53: trim, drop box and route tokens, expand [Stn],
    collapse blanks, strip separators. *)
Definition cleanup (addr : str) : str :=
  let s := Str.strip addr in
  let s := sub true POBOX_PAT [] s in
  let s := sub true RR_PAT [] s in
  let s := sub true STN_PAT (lit "Station") s in
  Str.strip (Str.strip_chars (lit ", ") (sub false WS_RUN (lit " ") s)).

(** Lines 54-59: make sure region and country are named. *)
Definition add_tokens (s : str) : str :=
  let s :=
    if negb (Str.contains region s) && search false NS_WORD s
    then Str.replace (lit " NS") (lit ", Nova Scotia") s else s in
  let s :=
    if negb (Str.contains region s) then s ++ lit ", Nova Scotia" else s in
  let s :=
    if negb (Str.contains country s) then s ++ lit ", Canada" else s in
  s.

Definition normalize_str (addr : str) : str := add_tokens (cleanup addr).

Definition normalize_address `{PyFloat} (addr : pyval) : str :=
  match addr with
  | PyStr s => normalize_str s
  | _ => []
  end.

End Address.

(** ** Geocoding client ([geocode_address], v9 lines 94-129) *)

Module Geocode.
Import Re.

Definition postal1 : re := Cls (fun c => Str.mem c (lit "ABCEGHJKLMNPRSTVXY")).
Definition postal2 : re := Cls (fun c => Str.mem c (lit "ABCEGHJKLMNPRSTVWXYZ")).
Definition d : re := Cls Chars.is_digit.

(** [\b[ABCEGHJ-NPRSTVXY]\d[ABCEGHJ-NPRSTV-Z]\s?\d[ABCEGHJ-NPRSTV-Z]\d\b],
    [re.I] *)
Definition POSTAL_PAT : re :=
  Seq WordB (Seq postal1 (Seq d (Seq postal2 (Seq (Opt (Cls Chars.py_isspace))
    (Seq d (Seq postal2 (Seq d WordB))))))).

(** [,\s*Nova Scotia.*]; the dot stops at a line feed. *)
Definition REGION_TAIL : re :=
  Seq (Chr ",") (Seq (Star (Cls Chars.py_isspace))
    (Seq (Lit (lit "Nova Scotia"))
         (Star (Cls (fun c => negb (Ascii.eqb c Chars.newline)))))).

(** Lines 109-115. *)
Definition variants (address : str) : list str :=
  let variants := [address] in
  let no_postal :=
    Str.strip (Str.strip_chars (lit ", ")
      (Str.replace (lit "  ") (lit " ") (sub true POSTAL_PAT [] address))) in
  let variants :=
    if negb (Str.eqb no_postal address) then variants ++ [no_postal]
    else variants in
  let short := sub false REGION_TAIL (lit ", Nova Scotia, Canada") address in
  if negb (Str.eqb short address) && negb (bool_decide (short ∈ variants))
  then variants ++ [short] else variants.

(** What a call of the service can raise. The last one stands for the
    exceptions outside [Exception] (an interrupt, an exit). *)
Inductive raised : Type :=
| GeocoderTimedOut
| GeocoderUnavailable
| OtherException
| NotAnException.

Inductive outcome (A : Type) : Type :=
| Ret (a : A)
| Exc (e : raised).
Arguments Ret {A} a.
Arguments Exc {A} e.

Section Client.
Context `{PyFloat}.

(** The answer of [_geocode_once]: a location, [None], or an
    exception. *)
Inductive reply : Type :=
| Found (latitude longitude : pyfloat)
| NoResult
| Raise (e : raised).

(** The remote service: its answer to the [n]-th call of the run,
    made with query [q]. *)
Definition service := nat -> str -> reply.

(** What the run did to the outside: the queries sent, in order, and
    the arguments of [time.sleep], in order. *)
Record effects : Type := {
  calls : list str;
  sleeps : list pyfloat
}.

Definition no_effects : effects := {| calls := []; sleeps := [] |}.

Definition call (q : str) (w : effects) : effects :=
  {| calls := calls w ++ [q]; sleeps := sleeps w |}.

Definition sleep (t : pyfloat) (w : effects) : effects :=
  {| calls := calls w; sleeps := sleeps w ++ [t] |}.

(** [backoff * (i + 1)] *)
Definition delay (backoff : pyfloat) (i : nat) : pyfloat :=
  float_mul backoff (float_of_Z (Z.of_nat i + 1)).

(** The inner loop, lines 118-128, from iteration [i] with [n]
    iterations left. [Ret (Some _)] is the [return] of line 122,
    [Ret None] the end of the loop. *)
Fixpoint attempts (svc : service) (backoff : pyfloat) (v : str)
    (i n : nat) (w : effects)
    : outcome (option (pyfloat * pyfloat)) * effects :=
  match n with
  | O => (Ret None, w)
  | S n' =>
      let w1 := call v w in
      match svc (length (calls w)) v with
      | Found la lo => (Ret (Some (la, lo)), w1)
      | NoResult => attempts svc backoff v (S i) n' w1
      | Raise GeocoderTimedOut | Raise GeocoderUnavailable =>
          attempts svc backoff v (S i) n' (sleep (delay backoff i) w1)
      | Raise OtherException =>
          attempts svc backoff v (S i) n' (sleep (delay backoff i) w1)
      | Raise NotAnException => (Exc NotAnException, w1)
      end
  end.

(** The outer loop, lines 117 and 129. *)
Fixpoint over_variants (svc : service) (backoff : pyfloat)
    (retries : nat) (vs : list str) (w : effects)
    : outcome (option pyfloat * option pyfloat) * effects :=
  match vs with
  | [] => (Ret (None, None), w)
  | v :: vs' =>
      match attempts svc backoff v 0 retries w with
      | (Ret (Some (la, lo)), w') => (Ret (Some la, Some lo), w')
      | (Ret None, w') => over_variants svc backoff retries vs' w'
      | (Exc e, w') => (Exc e, w')
      end
  end.

Definition geocode_address (svc : service) (address : str)
    (retries : Z) (backoff : pyfloat) (w : effects)
    : outcome (option pyfloat * option pyfloat) * effects :=
  over_variants svc backoff (Z.to_nat retries) (variants address) w.

(** The defaults of the signature: [retries=3], [backoff=2.0]. *)
Definition geocode_default (svc : service) (address : str) (w : effects) :=
  geocode_address svc address 3 (float_of_Z 2) w.

(** The queries a run sends when it starts with nothing done. *)
Definition calls_of (svc : service) (address : str) (retries : Z)
    (backoff : pyfloat) : list str :=
  calls (geocode_address svc address retries backoff no_effects).2.

(** From the words of the spec: a failure that is not transient ends
    the attempts on its variant, so the call after it, if there is one,
    is for another variant. *)
Definition falls_through_on_other_failure (svc : service)
    (address : str) (retries : Z) (backoff : pyfloat) : Prop :=
  forall (k : nat) (v : str),
    calls_of svc address retries backoff !! k = Some v ->
    svc k v = Raise OtherException ->
    calls_of svc address retries backoff !! S k <> Some v.

End Client.
End Geocode.

(** ** Geocode cache ([load_cache], [save_cache], v9 lines 77-91) *)

Module Cache.

(** A cache value: the pair [(lat, lon)], each a float or [None]. *)
Abbreviation coords := (option pyfloat * option pyfloat)%type.

Section Cache.
Context `{PyFloat}.

(** A row of the table [address,lat,lon], as [save_cache] hands it to
    [to_csv] and as [load_cache] gets it from [read_csv]: the address as
    text, and in the [lat] and [lon] columns a number or nothing. What
    [read_csv] returns for a file that [to_csv] wrote is [read_csv]
    below. *)
Record line : Type := {
  address : str;
  lat : option pyfloat;
  lon : option pyfloat
}.

(** The file at [cache_path]: absent, or the table in it. *)
Definition store : Type := option (list line).

(** [pd.notna] of a field read back: an empty field is read as NaN. *)
Definition notna (field : option pyfloat) : bool :=
  match field with
  | Some x => negb (float_isnan x)
  | None => false
  end.

(** What [to_csv] writes for a value: nothing for [None] and NaN. *)
Definition field_of (v : option pyfloat) : option pyfloat :=
  match v with
  | Some x => if float_isnan x then None else Some x
  | None => None
  end.

Definition load_cache (file : store) : gmap str coords :=
  match file with
  | Some df =>
      foldl (fun out row =>
               <[address row :=
                   (if notna (lat row) then lat row else None,
                    if notna (lon row) then lon row else None)]> out)
            ∅ df
  | None => ∅
  end.

(** The rows are written in the order of [cache.items()]; the order is
    the map's own here, and [load_cache] does not depend on it. *)
Definition save_cache (file : store) (cache : gmap str coords) : store :=
  if bool_decide (cache = ∅) then file
  else
    Some (map (fun '(a, v) =>
                 {| address := a; lat := field_of v.1; lon := field_of v.2 |})
              (map_to_list cache)).

End Cache.

(** *** The file between [to_csv] and [read_csv]

    The markers of a missing value of [read_csv]: a field with one of
    these texts is read as NaN, in a column of any type. *)
Definition NA_VALUES : list str :=
  [lit ""; lit "#N/A"; lit "#N/A N/A"; lit "#NA"; lit "-1.#IND";
   lit "-1.#QNAN"; lit "-NaN"; lit "-nan"; lit "1.#IND"; lit "1.#QNAN";
   lit "<NA>"; lit "N/A"; lit "NA"; lit "NULL"; lit "NaN"; lit "n/a";
   lit "nan"; lit "null"].

(** What pandas does between a save and a load is no part of the
    repository. [read_table rows] stands for the rows [read_csv] returns
    with their address as text when the file is the one [to_csv] wrote for
    [rows]; a row whose address it returns as something else (NaN for a
    marker of a missing value, a number or a boolean where the column
    reads as such) is left out, since no address is equal to the key
    [load_cache] then files it under. All that is stated of it is that
    no marker of a missing value comes back as text. *)
Class Pandas `{PyFloat} := {
  read_table : list line -> list line;
  read_table_na :
    forall rows row, row ∈ read_table rows -> address row ∉ NA_VALUES
}.

(** The table [read_csv] returns for the file. *)
Definition read_csv `{Pandas} (file : store) : store := read_table <$> file.

End Cache.

(** ** Dataset builder (the row loop of [main], v7 lines 613-662; the
    line numbers below are those of v7, the loop of v9 is the same text) *)

Module Builder.
Import Geocode Cache.

Section Builder.
Context `{PyFloat}.

Record args : Type := {
  no_cache : bool;
  regeocode_failed : bool
}.

(** An input row: the cells the loop reads. *)
Record in_row : Type := {
  School : pyval;
  Address : pyval;
  lat_cell : pyval;
  lon_cell : pyval
}.

(** The column [__full_addr__]: the address column through [astype(str)]
    and [normalize_address]. *)
Definition full_addr (row : in_row) : str :=
  Address.normalize_str (py_str (Address row)).

Record failure : Type := {
  f_School : pyval;
  f_Address : pyval;
  f_Normalized : str
}.

Record state : Type := {
  cache : gmap str coords;
  disk : store;
  net : effects;
  lats : list (option pyfloat);
  lons : list (option pyfloat);
  failed : list failure
}.

(** Lines 628-634: both conversions succeed, or both are [None]. *)
Definition prev_latlon (has_latlon : bool) (row : in_row)
    : option pyfloat * option pyfloat :=
  if has_latlon then
    match py_float (lat_cell row) with
    | Some a =>
        match py_float (lon_cell row) with
        | Some b => (Some a, Some b)
        | None => (None, None)
        end
    | None => (None, None)
    end
  else (None, None).

Definition valid (v : coords) : bool :=
  bool_decide (v.1 ≠ None) && bool_decide (v.2 ≠ None).

(** Lines 636-648: the coordinates of the row, the cache and the
    network effects after it. *)
Definition resolve (a : args) (svc : service) (has_latlon : bool)
    (row : in_row) (c : gmap str coords) (w : effects)
    : outcome (coords * gmap str coords) * effects :=
  let addr := full_addr row in
  let hit := bool_decide (is_Some (c !! addr)) in
  let entry := default (None, None) (c !! addr) in
  let fresh :=
    match geocode_default svc addr w with
    | (Ret v, w') =>
        (Ret (v, if negb (no_cache a) then <[addr := v]> c else c), w')
    | (Exc e, w') => (Exc e, w')
    end in
  match prev_latlon has_latlon row with
  | (Some prev_lat, Some prev_lon) =>
      (Ret ((Some prev_lat, Some prev_lon),
            if negb (no_cache a)
            then <[addr := (Some prev_lat, Some prev_lon)]> c else c), w)
  | _ =>
      if negb (no_cache a) && hit && valid entry then (Ret (entry, c), w)
      else if negb (no_cache a) && hit && negb (valid entry)
              && negb (regeocode_failed a)
      then (Ret (entry, c), w)
      else fresh
  end.

(** The body of the loop, lines 625-659. *)
Definition step (a : args) (svc : service) (has_latlon : bool)
    (row : in_row) (s : state) : outcome state :=
  match resolve a svc has_latlon row (cache s) (net s) with
  | (Ret ((la, lo), c), w) =>
      let failed' :=
        if bool_decide (la = None) || bool_decide (lo = None)
        then failed s ++ [{| f_School := School row;
                             f_Address := Address row;
                             f_Normalized := full_addr row |}]
        else failed s in
      Ret {| cache := c;
             disk := if negb (no_cache a) && (size c mod 25 =? 0)%nat
                     then save_cache (disk s) c else disk s;
             net := w;
             lats := lats s ++ [la];
             lons := lons s ++ [lo];
             failed := failed' |}
  | (Exc e, w) => Exc e
  end.

(** The loop and the save after it, lines 625-662. *)
Fixpoint rows_loop (a : args) (svc : service) (has_latlon : bool)
    (rows : list in_row) (s : state) : outcome state :=
  match rows with
  | [] =>
      Ret {| cache := cache s;
             disk := if negb (no_cache a)
                     then save_cache (disk s) (cache s) else disk s;
             net := net s; lats := lats s; lons := lons s;
             failed := failed s |}
  | row :: rows' =>
      match step a svc has_latlon row s with
      | Ret s' => rows_loop a svc has_latlon rows' s'
      | Exc e => Exc e
      end
  end.

(** Lines 615 and 624: the state the loop starts from. *)
Definition initial (a : args) (file : store) : state :=
  {| cache := if no_cache a then ∅ else load_cache file;
     disk := file; net := no_effects;
     lats := []; lons := []; failed := [] |}.

End Builder.
End Builder.

(** ** Status ([normalize_status_value], v9 lines 132-136) *)

Module Status.

Definition normalize_status_value `{PyFloat} `{PyText} (val : pyval) : str :=
  let v := py_lower (py_strip (py_str val)) in
  if bool_decide (v ∈ [lit "current"; lit "active"; lit "both"])
  then lit "current"
  else if Str.eqb v (lit "recent") then lit "recent"
  else lit "none".

End Status.

(** ** The page script (v9 lines 252-697) *)

(** JavaScript numbers: [Number.isFinite], truthiness and [String(x)]. *)
Class JsNumber := {
  jsnum : Type;
  num_isfinite : jsnum -> bool;
  (** [0], [-0] and NaN *)
  num_falsy : jsnum -> bool;
  num_string : jsnum -> str;
  (** [String] of a number starts with a digit, a sign, [NaN] or
      [Infinity]. *)
  num_string_lead :
    forall x, exists c rest,
      num_string x = c :: rest /\
      (Chars.is_digit c || Str.mem c (lit "-NI") = true)
}.

Module Js.
Section Values.
Context `{JsNumber} `{JsText}.

(** The values a property of a record can hold: what the JSON of a
    table cell gives, and [undefined]. *)
Inductive jsval : Type :=
| JUndefined
| JNull
| JBool (b : bool)
| JNum (x : jsnum)
| JStr (s : str).

Definition truthy (v : jsval) : bool :=
  match v with
  | JUndefined | JNull => false
  | JBool b => b
  | JNum x => negb (num_falsy x)
  | JStr s => negb (Str.eqb s [])
  end.

(** [a || b] *)
Definition or (a b : jsval) : jsval := if truthy a then a else b.

(** [String(v)], also the conversion of [v + ' '] *)
Definition to_string (v : jsval) : str :=
  match v with
  | JUndefined => lit "undefined"
  | JNull => lit "null"
  | JBool true => lit "true"
  | JBool false => lit "false"
  | JNum x => num_string x
  | JStr s => s
  end.

(** [Number.isFinite(v)] *)
Definition isFinite (v : jsval) : bool :=
  match v with
  | JNum x => num_isfinite x
  | _ => false
  end.

(** [set.has(v)] for a set of strings *)
Definition has (set : list str) (v : jsval) : bool :=
  match v with
  | JStr s => bool_decide (s ∈ set)
  | _ => false
  end.

(** An element of [DATA]: [{School, Address, Group, lat, lon, Status}];
    a property that is not there reads as [undefined]. *)
Record rec : Type := {
  School : jsval;
  Address : jsval;
  Group : jsval;
  lat : jsval;
  lon : jsval;
  Status : jsval
}.

(** Lines 301-306. *)
Definition normalizeStatus (s : jsval) : str :=
  let v := js_toLowerCase (js_trim (to_string (or s (JStr [])))) in
  if Str.eqb v (lit "recent") then lit "recent"
  else if Str.eqb v (lit "current") || Str.eqb v (lit "active")
          || Str.eqb v (lit "both")
  then lit "current"
  else lit "none".

(** What [visiblePredicate] reads from the page: the values of the
    checked status boxes, the selected options of the group list and
    the text of the search box. *)
Record controls : Type := {
  statusChk : list str;
  groupSel : list str;
  searchBox : str
}.

(** Lines 320-336. *)
Definition visiblePredicate (ui : controls) (r : rec) : bool :=
  let statuses := statusChk ui in
  let groups := groupSel ui in
  let q := js_toLowerCase (js_trim (searchBox ui)) in
  let show := has statuses (JStr (normalizeStatus (Status r))) in
  let show :=
    if show && negb (Nat.eqb (length (remove_dups groups)) 0)
    then has groups (or (Group r) (JStr [])) else show in
  let show :=
    if show && negb (Str.eqb q [])
    then
      let hay :=
        js_toLowerCase (to_string (or (School r) (JStr [])) ++ lit " "
                        ++ to_string (or (Address r) (JStr []))) in
      Str.contains q hay
    else show in
  show.

(** *** The marker store *)

(** An entry of [UNDO_STACK]: [{type, rec, idx}]. *)
Record action : Type := {
  type : str;
  a_rec : rec;
  idx : nat
}.

(** The script's globals. The top of [UNDO_STACK] is the end of the
    list, as [push] and [pop] have it. [markers] holds the records that
    have a circle on the map, [toast] the message last shown. *)
Record page : Type := {
  DATA : list rec;
  UNDO_STACK : list action;
  markers : list rec;
  moveIndex : option nat;
  toast : option str
}.

(** [a.splice(start, deleteCount, ...items)], [start >= 0] *)
Definition splice {A} (start deleteCount : nat) (items a : list A)
    : list A :=
  let start := Nat.min start (length a) in
  take start a ++ items ++ drop (start + deleteCount) a.

(** Lines 365-374: one circle per record with finite coordinates. *)
Definition rebuildMarkers (data : list rec) : list rec :=
  filter (fun r => isFinite (lat r) && isFinite (lon r) = true) data.

(** [{...rec}] *)
Definition spread (r : rec) : rec :=
  {| School := School r; Address := Address r; Group := Group r;
     lat := lat r; lon := lon r; Status := Status r |}.

(** Lines 386-394. *)
Definition _delete (i : nat) (p : page) : page :=
  match DATA p !! i with
  | None => p
  | Some r =>
      let undo :=
        UNDO_STACK p ++ [{| type := lit "delete"; a_rec := spread r; idx := i |}] in
      let data := splice i 1 [] (DATA p) in
      {| DATA := data; UNDO_STACK := undo;
         markers := rebuildMarkers data;
         moveIndex := moveIndex p;
         toast := Some (lit "Deleted. Click Undo Delete to restore.") |}
  end.

(** Lines 613-623. *)
Definition undoDelete (p : page) : page :=
  match last (UNDO_STACK p) with
  | None =>
      {| DATA := DATA p; UNDO_STACK := UNDO_STACK p;
         markers := markers p; moveIndex := moveIndex p;
         toast := Some (lit "Nothing to undo.") |}
  | Some act =>
      let undo := removelast (UNDO_STACK p) in
      if Str.eqb (type act) (lit "delete") then
        let pos := Nat.min (idx act) (length (DATA p)) in
        let data := splice pos 0 [a_rec act] (DATA p) in
        {| DATA := data; UNDO_STACK := undo;
           markers := rebuildMarkers data;
           moveIndex := moveIndex p;
           toast := Some (lit "Restored.") |}
      else
        {| DATA := DATA p; UNDO_STACK := undo;
           markers := markers p; moveIndex := moveIndex p;
           toast := toast p |}
  end.

(** *** CSV export *)

Definition headers : list str :=
  [lit "School"; lit "Address"; lit "Group"; lit "lat"; lit "lon";
   lit "Status"].

(** [row[h]] for the six headers, in their order. *)
Definition columns (row : rec) : list jsval :=
  [School row; Address row; Group row; lat row; lon row; Status row].

Definition dquote : ascii := ascii_of_nat 34.
Definition comma : ascii := ","%char.

(** Line 493: the empty string for [null] and [undefined], otherwise
    [String(row[h])] with every double quote doubled. *)
Definition escaped (v : jsval) : str :=
  match v with
  | JUndefined | JNull => []
  | _ => flat_map (fun c => if Ascii.eqb c dquote then [dquote; dquote]
                            else [c]) (to_string v)
  end.

(** Line 494: the test for a double quote, a comma or a line feed. *)
Definition needs_quotes (v : str) : bool :=
  existsb (fun c => Ascii.eqb c dquote || Ascii.eqb c comma
                    || Ascii.eqb c Chars.newline) v.

Definition cell (v : jsval) : str :=
  let v := escaped v in
  if needs_quotes v then [dquote] ++ v ++ [dquote] else v.

(** Lines 487-499: the text handed to the [Blob], or nothing when the
    function returns on line 488. *)
Definition downloadCSV (data : list rec) : option str :=
  if Nat.eqb (length data) 0 then None
  else
    let lines :=
      [Str.join [comma] headers]
      ++ map (fun row => Str.join [comma] (map cell (columns row))) data in
    Some (Str.join [Chars.newline] lines).

End Values.
End Js.

(** ** A reader for the exported text *)

Module Csv.
Import Js.

Inductive mode : Type :=
| Start    (* before the first character of a field *)
| Bare     (* inside a field without quotes *)
| Quoted   (* inside a quoted field *)
| Closing  (* after a quote met inside a quoted field *)
| Eol.     (* after a carriage return that ended a record *)

(** Modelled from the spec: the re-parsing of the CSV round trip, which
    the repository leaves to whoever opens the exported file. It is the
    reader of RFC 4180 with the line ends that the readers in use accept
    (Python's [csv], pandas, spreadsheets): outside quotes a record ends
    at a line feed, at a carriage return, or at a carriage return followed
    by a line feed, and a field ends at a comma; a quoted field stands for
    its content, line breaks included, with every doubled quote halved.
    With [cr] off a carriage return is a character like any other, which
    is the reading under which a line of the export is one record.
    [field], [row] and [rows] are what has been read so far. *)
Fixpoint read (cr : bool) (m : mode) (field : str) (row : list str)
    (rows : list (list str)) (s : str) : option (list (list str)) :=
  match s with
  | [] =>
      match m with
      | Quoted => None
      | _ => Some (rows ++ [row ++ [field]])
      end
  | c :: s' =>
      match m with
      | Quoted =>
          if Ascii.eqb c dquote then read cr Closing field row rows s'
          else read cr Quoted (field ++ [c]) row rows s'
      | _ =>
          if Ascii.eqb c comma then read cr Start [] (row ++ [field]) rows s'
          else if Ascii.eqb c Chars.newline
          then
            match m with
            | Eol => read cr Start [] [] rows s'
            | _ => read cr Start [] [] (rows ++ [row ++ [field]]) s'
            end
          else if cr && Ascii.eqb c Chars.cr
          then read cr Eol [] [] (rows ++ [row ++ [field]]) s'
          else
            match m with
            | Start | Eol =>
                if Ascii.eqb c dquote then read cr Quoted [] row rows s'
                else read cr Bare [c] row rows s'
            | Bare =>
                if Ascii.eqb c dquote then None
                else read cr Bare (field ++ [c]) row rows s'
            | _ =>
                if Ascii.eqb c dquote
                then read cr Quoted (field ++ [dquote]) row rows s'
                else None
            end
      end
  end.


(** The text of a field of a record, as the export sees it. *)
Definition field_text `{JsNumber} (v : jsval) : str :=
  match v with
  | JUndefined | JNull => []
  | _ => to_string v
  end.

(** A carriage return in a field that the export writes without quotes:
    the field holds one, and no quote, comma or line feed. *)
Definition bare_cr (t : str) : bool :=
  Str.mem Chars.cr t && negb (needs_quotes t).

End Csv.

(** ** Sample numbers

    Decimal integers with a NaN, enough to run the definitions on
    concrete inputs. *)

Module Sample.

Inductive number : Type :=
| NaN
| Int (z : Z).

Definition digits (z : Z) : str :=
  lit (DecimalString.NilZero.string_of_int (Z.to_int z)).

Definition isnan (x : number) : bool :=
  match x with NaN => true | Int _ => false end.

Definition mul (x y : number) : number :=
  match x, y with
  | Int a, Int b => Int (a * b)
  | _, _ => NaN
  end.

Definition py_text (x : number) : str :=
  match x with NaN => lit "nan" | Int z => digits z end.

Definition js_text (x : number) : str :=
  match x with NaN => lit "NaN" | Int z => digits z end.

Definition falsy (x : number) : bool :=
  match x with NaN => true | Int z => (z =? 0)%Z end.

End Sample.

(** * Properties *)

(** ** Strings *)

Module StrFacts.
Import Str.

Lemma eqb_eq (a b : str) : eqb a b = true <-> a = b.
Proof. apply bool_decide_eq_true. Qed.

Lemma starts_with_app (p r : str) : starts_with p (p ++ r) = true.
Proof.
  induction p as [|a p IH]; simpl; [reflexivity|].
  rewrite Ascii.eqb_refl. exact IH.
Qed.

Lemma starts_with_inv (p s : str) :
  starts_with p s = true -> exists r, s = p ++ r.
Proof.
  revert s. induction p as [|a p IH]; intros s; simpl.
  - intros _. by exists s.
  - destruct s as [|b s]; [easy|].
    rewrite andb_true_iff, Ascii.eqb_eq. intros [-> Hp].
    destruct (IH _ Hp) as [r ->]. by exists r.
Qed.

(** [contains] is the substring relation. *)
Lemma contains_iff (t s : str) :
  contains t s = true <-> exists a b, s = a ++ t ++ b.
Proof.
  induction s as [|c s IH]; simpl.
  - rewrite orb_false_r. split.
    + intros Ht. destruct (starts_with_inv _ _ Ht) as [r Hr].
      exists [], r. exact Hr.
    + intros (a & b & E). symmetry in E.
      apply app_eq_nil in E as [-> E]. apply app_eq_nil in E as [-> _].
      reflexivity.
  - rewrite orb_true_iff, IH. split.
    + intros [Ht | (a & b & ->)].
      * destruct (starts_with_inv _ _ Ht) as [r Hr]. exists [], r. exact Hr.
      * by exists (c :: a), b.
    + intros ([|x a] & b & E); simpl in E.
      * left. rewrite E. apply starts_with_app.
      * right. injection E as _ ->. eauto.
Qed.

Lemma contains_app_l (t s r : str) :
  contains t s = true -> contains t (s ++ r) = true.
Proof.
  rewrite !contains_iff. intros (a & b & ->).
  exists a, (b ++ r). by rewrite <- !app_assoc.
Qed.

Lemma contains_app_r (t s r : str) :
  contains t r = true -> contains t (s ++ r) = true.
Proof.
  rewrite !contains_iff. intros (a & b & ->).
  exists (s ++ a), b. by rewrite <- !app_assoc.
Qed.

Lemma lower_app (a b : str) : lower (a ++ b) = lower a ++ lower b.
Proof. apply map_app. Qed.

(** The fuel of [replace] is enough: more of it changes nothing. *)
Lemma replace_fuel_enough (old new : str) (n m : nat) (s : str) :
  old <> [] ->
  (length s <= n)%nat -> (length s <= m)%nat ->
  replace_fuel n old new s = replace_fuel m old new s.
Proof.
  intros Hold. revert m s.
  induction n as [|n IH]; intros [|m] [|c s] Hn Hm; simpl in *;
    try reflexivity; try lia.
  destruct (starts_with old (c :: s)).
  - f_equal. destruct old as [|o old]; [done|].
    apply IH; rewrite length_drop; simpl; lia.
  - f_equal. apply IH; lia.
Qed.

End StrFacts.

(** ** Regular expressions *)

Module ReFacts.
Import Re.

(** The fuel of [sub] is enough: more of it changes nothing. *)
Lemma sub_fuel_enough (icase : bool) (r : re) (repl : str) (n m : nat)
    (prev : option ascii) (s : str) :
  (length s <= n)%nat -> (length s <= m)%nat ->
  sub_fuel n icase r repl prev s = sub_fuel m icase r repl prev s.
Proof.
  revert m prev s. induction n as [|n IH]; intros [|m] prev s Hn Hm.
  - reflexivity.
  - destruct s; [|simpl in Hn; lia]. simpl.
    destruct (match_here icase r prev []) as [[p' rest]|]; [|reflexivity].
    destruct (length rest <? 0)%nat eqn:E;
      [apply Nat.ltb_lt in E; lia|by rewrite app_nil_r].
  - destruct s; [|simpl in Hm; lia]. simpl.
    destruct (match_here icase r prev []) as [[p' rest]|]; [|reflexivity].
    destruct (length rest <? 0)%nat eqn:E;
      [apply Nat.ltb_lt in E; lia|by rewrite app_nil_r].
  - simpl. destruct (match_here icase r prev s) as [[p' rest]|].
    + destruct (length rest <? length s)%nat eqn:E.
      * apply Nat.ltb_lt in E. f_equal. apply IH; lia.
      * destruct s as [|c s]; [reflexivity|]. simpl in Hn, Hm.
        do 2 f_equal. apply IH; lia.
    + destruct s as [|c s]; [reflexivity|]. simpl in Hn, Hm.
      f_equal. apply IH; lia.
Qed.

End ReFacts.

(** ** Trimming and lower case *)

Module TrimFacts.
Import Str.

Lemma lstrip_by_map (p : ascii -> bool) (f : ascii -> ascii) (s : str) :
  (forall c, p (f c) = p c) ->
  lstrip_by p (map f s) = map f (lstrip_by p s).
Proof.
  intros Hp. induction s as [|c s IH]; [reflexivity|].
  simpl. rewrite Hp. by destruct (p c).
Qed.

Lemma strip_by_map (p : ascii -> bool) (f : ascii -> ascii) (s : str) :
  (forall c, p (f c) = p c) ->
  strip_by p (map f s) = map f (strip_by p s).
Proof.
  intros Hp. unfold strip_by, rstrip_by.
  by rewrite lstrip_by_map, <- map_rev, lstrip_by_map, map_rev.
Qed.

Lemma lstrip_by_idem (p : ascii -> bool) (s : str) :
  lstrip_by p (lstrip_by p s) = lstrip_by p s.
Proof.
  induction s as [|c s IH]; [reflexivity|]. simpl.
  destruct (p c) eqn:Hc; [exact IH|]. simpl. by rewrite Hc.
Qed.

(** What is left of a string after [lstrip_by] is empty or starts with a
    character that stays. *)
Lemma lstrip_by_head (p : ascii -> bool) (s : str) :
  lstrip_by p s = [] \/
  exists c rest, lstrip_by p s = c :: rest /\ p c = false.
Proof.
  induction s as [|c s IH]; [by left|]. simpl.
  destruct (p c) eqn:Hc; [exact IH|]. right. eauto.
Qed.

Lemma lstrip_by_snoc_keep (p : ascii -> bool) (s : str) (c : ascii) :
  p c = false -> lstrip_by p (s ++ [c]) = lstrip_by p s ++ [c].
Proof.
  intros Hc. induction s as [|x s IH]; simpl; [by rewrite Hc|].
  destruct (p x); [exact IH|reflexivity].
Qed.

(** Trimming the right end leaves a left end that needs no trimming as
    it is. *)
Lemma lstrip_rstrip (p : ascii -> bool) (c : ascii) (rest : str) :
  p c = false ->
  lstrip_by p (rstrip_by p (c :: rest)) = rstrip_by p (c :: rest).
Proof.
  intros Hc. unfold rstrip_by. simpl.
  rewrite lstrip_by_snoc_keep by exact Hc.
  rewrite rev_app_distr. simpl. by rewrite Hc.
Qed.

Lemma rstrip_by_idem (p : ascii -> bool) (s : str) :
  rstrip_by p (rstrip_by p s) = rstrip_by p s.
Proof.
  unfold rstrip_by. by rewrite rev_involutive, lstrip_by_idem.
Qed.

Lemma strip_by_idem (p : ascii -> bool) (s : str) :
  strip_by p (strip_by p s) = strip_by p s.
Proof.
  unfold strip_by.
  destruct (lstrip_by_head p s) as [->|(c & rest & -> & Hc)].
  - reflexivity.
  - rewrite lstrip_rstrip by exact Hc. apply rstrip_by_idem.
Qed.

Lemma to_lower_idem (c : ascii) :
  Chars.to_lower (Chars.to_lower c) = Chars.to_lower c.
Proof.
  destruct c as [b0 b1 b2 b3 b4 b5 b6 b7].
  destruct b0, b1, b2, b3, b4, b5, b6, b7; reflexivity.
Qed.

Lemma to_lower_py_isspace (c : ascii) :
  Chars.py_isspace (Chars.to_lower c) = Chars.py_isspace c.
Proof.
  destruct c as [b0 b1 b2 b3 b4 b5 b6 b7].
  destruct b0, b1, b2, b3, b4, b5, b6, b7; reflexivity.
Qed.

Lemma to_lower_js_isspace (c : ascii) :
  Chars.js_isspace (Chars.to_lower c) = Chars.js_isspace c.
Proof.
  destruct c as [b0 b1 b2 b3 b4 b5 b6 b7].
  destruct b0, b1, b2, b3, b4, b5, b6, b7; reflexivity.
Qed.

Lemma lower_idem (s : str) : lower (lower s) = lower s.
Proof.
  unfold lower. rewrite map_map. apply map_ext. apply to_lower_idem.
Qed.

(** Trimming and lower-casing a second time changes nothing. *)
Lemma lower_strip_idem (s : str) :
  lower (strip (lower (strip s))) = lower (strip s).
Proof.
  unfold strip, lower.
  rewrite strip_by_map by apply to_lower_py_isspace.
  rewrite strip_by_idem. apply lower_idem.
Qed.

Lemma lower_trim_idem (s : str) :
  lower (trim (lower (trim s))) = lower (trim s).
Proof.
  unfold trim, lower.
  rewrite strip_by_map by apply to_lower_js_isspace.
  rewrite strip_by_idem. apply lower_idem.
Qed.

Lemma lstrip_by_last (p : ascii -> bool) (l : str) (c : ascii) :
  p c = false -> exists l', lstrip_by p (l ++ [c]) = l' ++ [c].
Proof.
  intros Hc. induction l as [|x l IH]; simpl.
  - rewrite Hc. by exists [].
  - destruct (p x); [exact IH|]. by exists (x :: l).
Qed.

Lemma strip_by_head (p : ascii -> bool) (c : ascii) (rest : str) :
  p c = false -> exists rest', strip_by p (c :: rest) = c :: rest'.
Proof.
  intros Hc. unfold strip_by, rstrip_by. simpl. rewrite Hc. simpl.
  destruct (lstrip_by_last p (rev rest) c Hc) as [l' ->].
  exists (rev l'). by rewrite rev_app_distr.
Qed.

End TrimFacts.

(** ** Sample numbers *)

Module SampleFacts.
Import Sample.

Lemma digits_lead (z : Z) :
  exists c rest,
    digits z = c :: rest /\ (Chars.is_digit c || Str.mem c (lit "-") = true).
Proof.
  unfold digits. destruct (Z.to_int z) as [u|u]; simpl.
  - unfold NilZero.string_of_uint. destruct u; simpl; eauto.
  - eauto.
Qed.

Lemma py_text_lead (x : number) :
  exists c rest,
    py_text x = c :: rest /\
    (Chars.is_digit c || Str.mem c (lit "-ni") = true).
Proof.
  destruct x as [|z]; [simpl; eauto|].
  destruct (digits_lead z) as (c & rest & E & Hc).
  exists c, rest. split; [exact E|].
  apply orb_true_iff in Hc as [Hc|Hc]; [by rewrite Hc|].
  simpl in *. rewrite orb_false_r in Hc. by rewrite Hc, orb_true_r.
Qed.

Lemma js_text_lead (x : number) :
  exists c rest,
    js_text x = c :: rest /\
    (Chars.is_digit c || Str.mem c (lit "-NI") = true).
Proof.
  destruct x as [|z]; [simpl; eauto|].
  destruct (digits_lead z) as (c & rest & E & Hc).
  exists c, rest. split; [exact E|].
  apply orb_true_iff in Hc as [Hc|Hc]; [by rewrite Hc|].
  simpl in *. rewrite orb_false_r in Hc. by rewrite Hc, orb_true_r.
Qed.

#[export] Instance sample_float : PyFloat := {|
  pyfloat := number;
  float_isnan := isnan;
  float_of_Z := Int;
  float_of_str := fun _ => None;
  float_mul := mul;
  float_str := py_text;
  float_str_lead := py_text_lead
|}.

#[export] Instance sample_jsnum : JsNumber := {|
  jsnum := number;
  num_isfinite := fun x => negb (isnan x);
  num_falsy := falsy;
  num_string := js_text;
  num_string_lead := js_text_lead
|}.

(** The functions of [Str] on every text: an instance for texts of ASCII
    characters, on which they are the functions of the two languages. *)
#[export] Instance sample_pytext : PyText := {|
  py_strip := Str.strip;
  py_lower := Str.lower;
  py_strip_ascii := fun s _ => eq_refl;
  py_lower_ascii := fun s _ => eq_refl;
  py_strip_head := fun c rest _ Hc =>
    TrimFacts.strip_by_head Chars.py_isspace c rest Hc;
  py_lower_head := fun c rest _ =>
    ex_intro _ (Str.lower rest) eq_refl;
  py_lower_strip_idem := TrimFacts.lower_strip_idem
|}.

#[export] Instance sample_jstext : JsText := {|
  js_trim := Str.trim;
  js_toLowerCase := Str.lower;
  js_trim_ascii := fun s _ => eq_refl;
  js_toLowerCase_ascii := fun s _ => eq_refl;
  js_trim_head := fun c rest _ Hc =>
    TrimFacts.strip_by_head Chars.js_isspace c rest Hc;
  js_toLowerCase_head := fun c rest _ =>
    ex_intro _ (Str.lower rest) eq_refl;
  js_toLowerCase_blank := fun a b =>
    eq_trans (StrFacts.lower_app a (lit " " ++ b))
             (f_equal (app (Str.lower a)) (StrFacts.lower_app (lit " ") b))
|}.

(** A reader for the examples. A marker of a missing value is no text,
    and neither is a field of a column that holds whole numbers and such
    markers only. *)
Definition na (s : str) : bool := bool_decide (s ∈ Cache.NA_VALUES).

Definition whole (s : str) : bool :=
  negb (Str.eqb s []) && forallb Chars.is_digit s.

Definition sample_read (rows : list Cache.line) : list Cache.line :=
  if forallb (fun r => na (Cache.address r) || whole (Cache.address r)) rows
  then []
  else List.filter (fun r => negb (na (Cache.address r))) rows.

Lemma sample_read_na (rows : list Cache.line) (row : Cache.line) :
  row ∈ sample_read rows -> Cache.address row ∉ Cache.NA_VALUES.
Proof.
  unfold sample_read. destruct (forallb _ rows).
  - intros Hin. by apply elem_of_nil in Hin.
  - intros Hin. apply list_elem_of_In, filter_In in Hin as [_ Hna].
    apply negb_true_iff in Hna. by apply bool_decide_eq_false in Hna.
Qed.

#[export] Instance sample_pandas : Cache.Pandas := {|
  Cache.read_table := sample_read;
  Cache.read_table_na := sample_read_na
|}.

End SampleFacts.

(** ** Sample records *)

Module SampleData.
Import Js SampleFacts.

Definition elm_ps : rec :=
  {| School := JStr (lit "Elm PS"); Address := JStr (lit "12 Main St");
     Group := JStr (lit "HRCE"); lat := JNum (Sample.Int 44);
     lon := JNum (Sample.Int (-63)); Status := JStr (lit "none") |}.

Definition oak_ps : rec :=
  {| School := JStr (lit "Oak PS"); Address := JStr (lit "123 Main St, Apt 4");
     Group := JStr (lit "AVRCE"); lat := JNum (Sample.Int 45);
     lon := JNum (Sample.Int (-64)); Status := JStr (lit "recent") |}.

Definition pine : rec :=
  {| School := JStr (lit "Pine Academy"); Address := JNull;
     Group := JUndefined; lat := JNum Sample.NaN;
     lon := JNum Sample.NaN; Status := JStr (lit "current") |}.

Definition session : page :=
  {| DATA := [elm_ps; oak_ps; pine]; UNDO_STACK := [];
     markers := [elm_ps; oak_ps]; moveIndex := None; toast := None |}.

End SampleData.

(** ** Address cleanup *)

Module AddressFacts.
Import Str StrFacts Address SampleFacts.

Lemma add_tokens_region (s : str) : contains region (add_tokens s) = true.
Proof.
  unfold add_tokens.
  set (s1 := if negb (contains region s) && _ then _ else s).
  assert (contains region
            (if negb (contains region s1) then s1 ++ lit ", Nova Scotia"
             else s1) = true) as Hr.
  { destruct (contains region s1) eqn:E; simpl; [exact E|].
    apply contains_app_r. reflexivity. }
  destruct (negb (contains country _)); [|exact Hr].
  by apply contains_app_l.
Qed.

Lemma add_tokens_country (s : str) : contains country (add_tokens s) = true.
Proof.
  unfold add_tokens.
  set (s1 := if negb (contains region s) && _ then _ else s).
  set (s2 := if negb (contains region s1) then _ else s1).
  destruct (contains country s2) eqn:E; simpl; [exact E|].
  apply contains_app_r. reflexivity.
Qed.

(** Nothing is added to a string that names region and country. *)
Lemma add_tokens_fixed (s : str) :
  contains region s = true -> contains country s = true ->
  add_tokens s = s.
Proof.
  intros Hr Hc. unfold add_tokens. rewrite Hr. simpl. rewrite Hr. simpl.
  by rewrite Hc.
Qed.

Example normalize_address_sample :
  normalize_address
    (PyStr (lit "  123 Main St,  PO Box 45, Halifax NS B3H 1A1 "))
  = lit "123 Main St, 45, Halifax, Nova Scotia B3H 1A1, Canada" /\
  normalize_address (PyStr (lit "RR 2 Stn. Main, Truro"))
  = lit "Station. Main, Truro, Nova Scotia, Canada" /\
  normalize_address (PyNum (Sample.Int 7)) = [].
Proof. repeat split; vm_compute; reflexivity. Qed.

(** C5, as stated, fails: a second pass changes the result of the first,
    on the empty address (the leading separator goes), on an address
    with two nested route tokens (the second token goes) and on a value
    that is not a string (its result, the empty string, gets the
    tokens). *)
Lemma normalize_address_not_idempotent :
  normalize_address (PyStr (normalize_address (PyStr (lit ""))))
    <> normalize_address (PyStr (lit "")) /\
  normalize_address (PyStr (normalize_address (PyStr (lit "RR RR 1 2"))))
    <> normalize_address (PyStr (lit "RR RR 1 2")) /\
  normalize_address (PyStr (normalize_address PyNone))
    <> normalize_address PyNone.
Proof. repeat split; vm_compute; discriminate. Qed.

(** C5 (amended): [normalize_address] gives a string for every value,
    the empty one for a value that is not a string; for every string,
    empty or not, the result names the region and the country; and a
    second pass over the result of a string returns it unchanged
    whenever the cleanup steps (trim, box and route tokens, station,
    blanks, separators) leave that result as it is. *)
Theorem normalize_address_tokens_and_fixpoint `{PyFloat}
    (v : pyval) (s : str) :
  (exists r, normalize_address v = r) /\
  ((forall s', v <> PyStr s') -> normalize_address v = []) /\
  contains (lit "Nova Scotia") (normalize_address (PyStr s)) = true /\
  contains (lit "Canada") (normalize_address (PyStr s)) = true /\
  (cleanup (normalize_address (PyStr s)) = normalize_address (PyStr s) ->
   normalize_address (PyStr (normalize_address (PyStr s)))
     = normalize_address (PyStr s)).
Proof.
  split; [eauto|]. split; [|split; [|split]].
  - intros Hv. destruct v as [| | |s']; try reflexivity. by destruct (Hv s').
  - apply add_tokens_region.
  - apply add_tokens_country.
  - simpl. intros Hclean. unfold normalize_str at 1. rewrite Hclean.
    unfold normalize_str.
    apply add_tokens_fixed; [apply add_tokens_region|apply add_tokens_country].
Qed.

Lemma normalize_address_tokens_and_fixpoint_witness :
  let s := lit "12 Elm St, PO Box 45, Truro NS" in
  cleanup (normalize_address (PyStr s)) = normalize_address (PyStr s) /\
  normalize_address (PyStr s)
    = lit "12 Elm St, 45, Truro, Nova Scotia, Canada" /\
  normalize_address (PyStr (normalize_address (PyStr s)))
    = normalize_address (PyStr s).
Proof.
  intros s.
  assert (cleanup (normalize_address (PyStr s)) = normalize_address (PyStr s))
    as Hc by (vm_compute; reflexivity).
  split; [exact Hc|]. split; [vm_compute; reflexivity|].
  exact (proj2 (proj2 (proj2 (proj2
           (normalize_address_tokens_and_fixpoint PyNone s)))) Hc).
Defined.

End AddressFacts.

(** ** Geocoding client *)

Module GeocodeFacts.
Import Geocode SampleFacts.

Section Retry.
Context `{PyFloat}.

(** An exception that one of the two [except] clauses catches. *)
Definition caught (e : raised) : Prop := e <> NotAnException.

(** One failed attempt: the call is logged, the sleep is
    [backoff * (i + 1)], the loop goes on with the same variant. *)
Lemma attempts_raise (svc : service) (backoff : pyfloat) (v : str)
    (i n : nat) (w : effects) (e : raised) :
  caught e -> svc (length (calls w)) v = Raise e ->
  attempts svc backoff v i (S n) w
  = attempts svc backoff v (S i) n (sleep (delay backoff i) (call v w)).
Proof.
  intros He Hsvc. simpl. rewrite Hsvc. by destruct e.
Qed.

(** [k] failed attempts in a row. *)
Lemma attempts_raise_run (svc : service) (backoff : pyfloat) (v : str)
    (k i n : nat) (w : effects) :
  (forall j, (j < k)%nat ->
     exists e, caught e /\ svc (length (calls w) + j)%nat v = Raise e) ->
  attempts svc backoff v i (k + n) w
  = attempts svc backoff v (i + k) n
      {| calls := calls w ++ repeat v k;
         sleeps := sleeps w ++ map (delay backoff) (seq i k) |}.
Proof.
  revert i w. induction k as [|k IH]; intros i w Hfail.
  - simpl. rewrite !app_nil_r, Nat.add_0_r. by destruct w.
  - destruct (Hfail 0%nat ltac:(lia)) as (e & He & Hsvc).
    rewrite Nat.add_0_r in Hsvc.
    change (S k + n)%nat with (S (k + n)).
    rewrite (attempts_raise _ _ _ _ _ _ e He Hsvc), IH.
    + simpl. rewrite <- !app_assoc. simpl.
      replace (S (i + k))%nat with (i + S k)%nat by lia. reflexivity.
    + intros j Hj. destruct (Hfail (S j) ltac:(lia)) as (e' & He' & Hsvc').
      exists e'. split; [exact He'|]. simpl. rewrite length_app. simpl.
      replace (length (calls w) + 1 + j)%nat
        with (length (calls w) + S j)%nat by lia. exact Hsvc'.
Qed.

(** With a service that only raises, every variant gets [retries]
    calls and the function returns the pair of [None]. *)
Lemma over_variants_all_raise (svc : service) (backoff : pyfloat)
    (retries : nat) (vs : list str) (w : effects) :
  (forall n q, exists e, caught e /\ svc n q = Raise e) ->
  over_variants svc backoff retries vs w
  = (Ret (None, None),
     {| calls := calls w ++ flat_map (fun v => repeat v retries) vs;
        sleeps := sleeps w
                  ++ flat_map (fun _ => map (delay backoff) (seq 0 retries))
                       vs |}).
Proof.
  intros Hfail. revert w. induction vs as [|v vs IH]; intros w.
  - simpl. rewrite !app_nil_r. by destruct w.
  - simpl.
    replace retries with (retries + 0)%nat at 1 by lia.
    rewrite attempts_raise_run by (intros; apply Hfail).
    simpl. rewrite IH. simpl. by rewrite <- !app_assoc.
Qed.

(** C1 (amended): whatever exception the call of attempt [i + 1]
    raises, transient or not, the function sleeps
    [backoff * (i + 1)] and tries the same variant again; it goes on
    to the next variant once [retries] attempts on the variant have
    failed. *)
Theorem geocode_retries_on_any_exception (svc : service)
    (backoff : pyfloat) (retries : nat) (v : str) (vs : list str)
    (i n : nat) (w : effects) (e : raised) :
  caught e -> svc (length (calls w)) v = Raise e ->
  attempts svc backoff v i (S n) w
  = attempts svc backoff v (S i) n
      {| calls := calls w ++ [v];
         sleeps := sleeps w
                   ++ [float_mul backoff (float_of_Z (Z.of_nat i + 1))] |}
  /\
  ((forall j, (j < retries)%nat ->
      exists e', caught e' /\ svc (length (calls w) + j)%nat v = Raise e') ->
   over_variants svc backoff retries (v :: vs) w
   = over_variants svc backoff retries vs
       {| calls := calls w ++ repeat v retries;
          sleeps := sleeps w ++ map (delay backoff) (seq 0 retries) |}).
Proof.
  intros He Hsvc. split.
  - by rewrite (attempts_raise _ _ _ _ _ _ e He Hsvc).
  - intros Hall. simpl.
    replace retries with (retries + 0)%nat at 1 by lia.
    by rewrite attempts_raise_run.
Qed.

(** C7: when every call raises an exception, [geocode_address] with
    [retries=3] calls the service exactly three times for each
    variant, in the order of the variants, sleeps after each call, and
    returns the pair of [None]: nothing is raised to the caller. *)
Theorem geocode_exhausts_three_attempts (svc : service) (address : str)
    (backoff : pyfloat) (w : effects) :
  (forall n q, exists e, caught e /\ svc n q = Raise e) ->
  geocode_address svc address 3 backoff w
  = (Ret (None, None),
     {| calls := calls w ++ flat_map (fun v => [v; v; v]) (variants address);
        sleeps := sleeps w
                  ++ flat_map (fun _ => [delay backoff 0; delay backoff 1;
                                         delay backoff 2])
                       (variants address) |}).
Proof.
  intros Hfail. unfold geocode_address.
  change (Z.to_nat 3) with 3%nat.
  by rewrite over_variants_all_raise.
Qed.

End Retry.

(** A service whose first answer is an error that is not transient and
    that finds the place afterwards. *)
Definition flaky : service :=
  fun n _ =>
    match n with
    | O => Raise OtherException
    | _ => Found (Sample.Int 44) (Sample.Int (-63))
    end.

(** A service that is down: a timeout, then errors of other kinds. *)
Definition down : service :=
  fun n _ =>
    match n with
    | O => Raise GeocoderTimedOut
    | _ => Raise OtherException
    end.

Example variants_sample :
  variants (lit "123 Main St, Halifax, Nova Scotia B3H 1A1, Canada")
  = [lit "123 Main St, Halifax, Nova Scotia B3H 1A1, Canada";
     lit "123 Main St, Halifax, Nova Scotia , Canada";
     lit "123 Main St, Halifax, Nova Scotia, Canada"] /\
  variants (lit "Halifax, Nova Scotia, Canada")
  = [lit "Halifax, Nova Scotia, Canada"].
Proof. split; vm_compute; reflexivity. Qed.

(** C1, as stated, fails: after the error that is not transient the
    same variant is queried again, and the answer to that second call is
    what the function returns. *)
Lemma other_failure_is_retried :
  let address := lit "Halifax, Nova Scotia" in
  variants address = [address; lit "Halifax, Nova Scotia, Canada"] /\
  geocode_address flaky address 3 (Sample.Int 2) no_effects
  = (Ret (Some (Sample.Int 44), Some (Sample.Int (-63))),
     {| calls := [address; address]; sleeps := [Sample.Int 2] |}) /\
  ~ falls_through_on_other_failure flaky address 3 (Sample.Int 2).
Proof.
  intros address. split; [vm_compute; reflexivity|].
  split; [vm_compute; reflexivity|].
  intros Hclaim. apply (Hclaim 0%nat address); vm_compute; reflexivity.
Qed.

Lemma geocode_retries_on_any_exception_witness :
  let v := lit "Halifax, Nova Scotia" in
  attempts down (Sample.Int 2) v 0 3 no_effects
  = attempts down (Sample.Int 2) v 1 2
      {| calls := [v]; sleeps := [Sample.Int 2] |} /\
  over_variants down (Sample.Int 2) 3 [v; lit "Halifax"] no_effects
  = over_variants down (Sample.Int 2) 3 [lit "Halifax"]
      {| calls := [v; v; v];
         sleeps := [Sample.Int 2; Sample.Int 4; Sample.Int 6] |}.
Proof.
  intros v.
  destruct (geocode_retries_on_any_exception down (Sample.Int 2) 3 v
              [lit "Halifax"] 0 2 no_effects GeocoderTimedOut)
    as [Hstep Hnext].
  - discriminate.
  - reflexivity.
  - split; [exact Hstep|]. apply Hnext.
    intros [|j] _; [exists GeocoderTimedOut|exists OtherException];
      (split; [discriminate|reflexivity]).
Defined.

Lemma geocode_exhausts_three_attempts_witness :
  let address := lit "Halifax, Nova Scotia" in
  geocode_address down address 3 (Sample.Int 2) no_effects
  = (Ret (None, None),
     {| calls := [address; address; address;
                  lit "Halifax, Nova Scotia, Canada";
                  lit "Halifax, Nova Scotia, Canada";
                  lit "Halifax, Nova Scotia, Canada"];
        sleeps := [Sample.Int 2; Sample.Int 4; Sample.Int 6;
                   Sample.Int 2; Sample.Int 4; Sample.Int 6] |}).
Proof.
  intros address.
  rewrite (geocode_exhausts_three_attempts down address (Sample.Int 2)
             no_effects).
  - vm_compute. reflexivity.
  - intros [|n] q; [exists GeocoderTimedOut|exists OtherException];
      (split; [discriminate|reflexivity]).
Defined.

End GeocodeFacts.

(** ** Geocode cache *)

Module CacheFacts.
Import Cache SampleFacts.

Section RoundTrip.
Context `{PyFloat} `{!Pandas}.

(** A pair as it comes back from the file: NaN has become [None]. *)
Definition read_back (v : coords) : coords := (field_of v.1, field_of v.2).

Definition line_of (p : str * coords) : line :=
  {| address := p.1; lat := field_of p.2.1; lon := field_of p.2.2 |}.

Definition put (out : gmap str coords) (row : line) : gmap str coords :=
  <[address row :=
      (if notna (lat row) then lat row else None,
       if notna (lon row) then lon row else None)]> out.

Lemma notna_field_of (v : option pyfloat) :
  (if notna (field_of v) then field_of v else None) = field_of v.
Proof.
  destruct v as [x|]; simpl; [|reflexivity].
  destruct (float_isnan x) eqn:E; simpl; [reflexivity|]. by rewrite E.
Qed.

Lemma field_of_number (v : option pyfloat) :
  (forall x, v = Some x -> float_isnan x = false) -> field_of v = v.
Proof.
  destruct v as [x|]; simpl; [|reflexivity].
  intros Hx. by rewrite (Hx x eq_refl).
Qed.

Lemma put_lines (l : list (str * coords)) :
  NoDup (l.*1) ->
  foldl put ∅ (map line_of l) = list_to_map (prod_map id read_back <$> l).
Proof.
  induction l as [|[k v] l IH] using rev_ind; [reflexivity|].
  rewrite fmap_app, NoDup_app. intros (Hl & Hk & _).
  rewrite map_app, foldl_app, fmap_app. simpl.
  rewrite list_to_map_snoc.
  - rewrite <- IH by exact Hl. unfold put at 1. simpl.
    by rewrite !notna_field_of.
  - rewrite <- list_fmap_compose. intros Hin. apply (Hk k).
    + exact Hin.
    + simpl. apply list_elem_of_here.
Qed.

Lemma load_save (file : store) (cache : gmap str coords) :
  cache <> ∅ ->
  load_cache (save_cache file cache) = read_back <$> cache.
Proof.
  intros Hne. unfold save_cache. rewrite bool_decide_eq_false_2 by exact Hne.
  unfold load_cache.
  transitivity (foldl put ∅ (map line_of (map_to_list cache))).
  - f_equal. apply map_ext. by intros [a v].
  - rewrite put_lines by apply NoDup_fst_map_to_list.
    by rewrite list_to_map_fmap, list_to_map_to_list.
Qed.

(** An address on no row of the table is not in the loaded cache. *)
Lemma load_cache_absent (df : list line) (k : str) :
  (forall row, row ∈ df -> address row <> k) ->
  load_cache (Some df) !! k = None.
Proof.
  unfold load_cache. induction df as [|row df IH] using rev_ind; intros Hk.
  - apply lookup_empty.
  - rewrite foldl_app. cbn [foldl].
    rewrite lookup_insert_ne.
    + apply IH. intros r Hr. apply Hk, elem_of_app. by left.
    + apply Hk, elem_of_app. right. apply list_elem_of_here.
Qed.

(** C6 (amended): saving an empty cache writes nothing. Saving a cache
    that is not empty and loading it again gives, whatever the file held
    before and provided [read_csv] returns the table that was written,
    every address as its text and every number as it was, a map with the
    keys of the saved one and, under each key, the saved pair with NaN
    read back as [None]; a pair of numbers that are not NaN and a pair of
    [None] come back as they were. A key that is a marker of a missing
    value, the empty text or [NA] for one, is never found after a load,
    whatever was saved. *)
Theorem cache_round_trip (file : store) (cache : gmap str coords) :
  (cache <> ∅ ->
   read_csv (save_cache file cache) = save_cache file cache ->
   load_cache (read_csv (save_cache file cache)) = read_back <$> cache /\
   forall k v,
     cache !! k = Some v ->
     (forall x, v.1 = Some x -> float_isnan x = false) ->
     (forall x, v.2 = Some x -> float_isnan x = false) ->
     load_cache (read_csv (save_cache file cache)) !! k = Some v) /\
  (forall k, k ∈ NA_VALUES ->
     load_cache (read_csv (save_cache file cache)) !! k = None) /\
  save_cache file ∅ = file.
Proof.
  split; [|split; [|reflexivity]].
  - intros Hne Hread. rewrite Hread, load_save by exact Hne.
    split; [reflexivity|].
    intros k [la lo] Hk Hla Hlo. rewrite lookup_fmap, Hk. simpl.
    unfold read_back. simpl in *.
    by rewrite (field_of_number la), (field_of_number lo).
  - intros k Hk. unfold read_csv.
    destruct (save_cache file cache) as [df|]; [|apply lookup_empty].
    cbn [fmap option_fmap option_map]. apply load_cache_absent.
    intros row Hrow E. apply (read_table_na df row Hrow). by rewrite E.
Qed.

End RoundTrip.

Definition halifax : str := lit "Halifax, Nova Scotia, Canada".
Definition truro : str := lit "Truro, Nova Scotia, Canada".

(** C6, as stated, fails: an empty cache does not replace the file, so
    loading after the save gives the old entries; a NaN coordinate comes
    back as [None]; and an entry under the empty text, which [read_csv]
    takes for a missing value, is not found again. *)
Lemma save_keeps_file_and_drops_nan :
  let file := Some [{| address := halifax; lat := Some (Sample.Int 44);
                       lon := Some (Sample.Int (-63)) |}] in
  let cache : gmap str coords :=
    {[ truro := (Some Sample.NaN, Some Sample.NaN) ]} in
  let unnamed : gmap str coords :=
    {[ lit "" := (Some (Sample.Int 44), Some (Sample.Int (-63))) ]} in
  load_cache (read_csv (save_cache file ∅)) <> ∅ /\
  load_cache (read_csv (save_cache file cache)) !! truro <> cache !! truro /\
  load_cache (read_csv (save_cache file unnamed)) !! lit ""
    <> unnamed !! lit "".
Proof.
  intros file cache unnamed. split; [|split].
  - intros Hload. apply (f_equal (fun m => m !! halifax)) in Hload.
    vm_compute in Hload. discriminate.
  - intros Hload. vm_compute in Hload. discriminate.
  - intros Hload. vm_compute in Hload. discriminate.
Qed.

Lemma cache_round_trip_witness :
  let file := Some [{| address := halifax; lat := Some (Sample.Int 44);
                       lon := Some (Sample.Int (-63)) |}] in
  let cache : gmap str coords :=
    {[ truro := (Some (Sample.Int 45), Some (Sample.Int (-63))) ]} in
  cache <> ∅ /\
  read_csv (save_cache file cache) = save_cache file cache /\
  load_cache (read_csv (save_cache file cache)) = read_back <$> cache /\
  load_cache (read_csv (save_cache file cache)) !! truro
  = Some (Some (Sample.Int 45), Some (Sample.Int (-63))).
Proof.
  intros file cache.
  assert (cache <> ∅) as Hne by apply insert_non_empty.
  assert (read_csv (save_cache file cache) = save_cache file cache) as Hread
    by (vm_compute; reflexivity).
  destruct (proj1 (cache_round_trip file cache) Hne Hread) as [Hall Hkey].
  split; [exact Hne|]. split; [exact Hread|]. split; [exact Hall|].
  apply Hkey.
  - apply lookup_singleton_eq.
  - intros x [= <-]. reflexivity.
  - intros x [= <-]. reflexivity.
Defined.

End CacheFacts.


(** ** Dataset builder *)

Module BuilderFacts.
Import Geocode Cache Builder SampleFacts.

Section Rows.
Context `{PyFloat}.

Lemma prev_latlon_valid (row : in_row) (prev_lat prev_lon : pyfloat) :
  py_float (lat_cell row) = Some prev_lat ->
  py_float (lon_cell row) = Some prev_lon ->
  prev_latlon true row = (Some prev_lat, Some prev_lon).
Proof. intros Hlat Hlon. unfold prev_latlon. by rewrite Hlat, Hlon. Qed.

(** The coordinates of a row are those of the row or those of the
    cache, and nothing is sent, as soon as the cache holds a valid
    pair for the address. *)
Lemma resolve_hit (a : args) (svc : service) (has_latlon : bool)
    (row : in_row) (c : gmap str coords) (w : effects)
    (la lo : pyfloat) :
  no_cache a = false ->
  c !! full_addr row = Some (Some la, Some lo) ->
  exists v c', resolve a svc has_latlon row c w = (Ret (v, c'), w) /\
    (prev_latlon has_latlon row = (None, None) ->
     v = (Some la, Some lo) /\ c' = c).
Proof.
  intros Ha Hc. unfold resolve. generalize (full_addr row) Hc.
  intros addr Haddr. rewrite Ha, Haddr.
  destruct (prev_latlon has_latlon row) as [[x|] [y|]] eqn:E.
  - eexists _, _. split; [reflexivity|discriminate].
  - eexists _, _. split; [reflexivity|discriminate].
  - eexists _, _. split; [reflexivity|discriminate].
  - eexists _, _. split; [reflexivity|]. intros _. split; reflexivity.
Qed.

(** C4: a row whose [lat] and [lon] cells convert to numbers keeps
    them: the loop body sends nothing to the service, appends the two
    numbers to the result columns and, unless the cache is switched
    off, stores them under the normalized address of the row. A row
    whose normalized address has a valid pair in the cache sends
    nothing either, and without coordinates of its own it gets the
    pair of the cache. *)
Theorem existing_coordinates_skip_geocoding (a : args) (svc : service)
    (row : in_row) (s : state) :
  (forall prev_lat prev_lon,
     py_float (lat_cell row) = Some prev_lat ->
     py_float (lon_cell row) = Some prev_lon ->
     exists s', step a svc true row s = Ret s' /\
       net s' = net s /\
       lats s' = lats s ++ [Some prev_lat] /\
       lons s' = lons s ++ [Some prev_lon] /\
       failed s' = failed s /\
       cache s' =
         (if no_cache a then cache s
          else <[full_addr row := (Some prev_lat, Some prev_lon)]>
                 (cache s))) /\
  (forall has_latlon la lo,
     no_cache a = false ->
     cache s !! full_addr row = Some (Some la, Some lo) ->
     exists s', step a svc has_latlon row s = Ret s' /\
       net s' = net s /\
       (prev_latlon has_latlon row = (None, None) ->
        lats s' = lats s ++ [Some la] /\
        lons s' = lons s ++ [Some lo] /\
        cache s' = cache s)).
Proof.
  split.
  - intros prev_lat prev_lon Hlat Hlon. unfold step, resolve.
    rewrite (prev_latlon_valid _ _ _ Hlat Hlon).
    generalize (full_addr row). intros addr.
    eexists. split; [reflexivity|].
    cbn [net lats lons failed cache].
    rewrite !bool_decide_eq_false_2 by discriminate.
    cbn [orb]. repeat split. by destruct (no_cache a).
  - intros has_latlon la lo Ha Hc.
    destruct (resolve_hit a svc has_latlon row (cache s) (net s) la lo
                Ha Hc) as (v & c' & Hres & Hv).
    unfold step. rewrite Hres. destruct v as [x y].
    eexists. split; [reflexivity|].
    cbn [net lats lons failed cache]. split; [reflexivity|].
    intros Hprev. destruct (Hv Hprev) as [[= -> ->] ->]. done.
Qed.

End Rows.

Definition elm : in_row :=
  {| School := PyStr (lit "Elm PS");
     Address := PyStr (lit "123 Main St, Halifax NS");
     lat_cell := PyNum (Sample.Int 44);
     lon_cell := PyNum (Sample.Int (-63)) |}.

Definition oak : in_row :=
  {| School := PyStr (lit "Oak PS");
     Address := PyStr (lit "9 Oak Rd, Truro NS");
     lat_cell := PyNone;
     lon_cell := PyNone |}.

Definition flags : args := {| no_cache := false; regeocode_failed := true |}.

Definition unreachable : service := fun _ _ => Raise GeocoderUnavailable.

Definition cached : gmap str coords :=
  {[ lit "9 Oak Rd, Truro, Nova Scotia, Canada"
       := (Some (Sample.Int 45), Some (Sample.Int (-63))) ]}.

Definition warm : state :=
  {| cache := cached; disk := None; net := no_effects;
     lats := []; lons := []; failed := [] |}.

Lemma full_addr_elm :
  full_addr elm = lit "123 Main St, Halifax, Nova Scotia, Canada".
Proof. vm_compute. reflexivity. Qed.

Lemma full_addr_oak :
  full_addr oak = lit "9 Oak Rd, Truro, Nova Scotia, Canada".
Proof. vm_compute. reflexivity. Qed.

(** The scenario of the spec: one row without coordinates, an empty
    cache, a service that finds the place at the first call. *)
Definition finds : service := fun _ _ => Found (Sample.Int 44) (Sample.Int (-63)).

Example one_row_run :
  match rows_loop flags finds false
          [{| School := PyStr (lit "Elm PS");
              Address := PyStr (lit "123 Main St, Halifax NS");
              lat_cell := PyNone; lon_cell := PyNone |}]
          (initial flags None) with
  | Ret s =>
      lats s = [Some (Sample.Int 44)] /\ lons s = [Some (Sample.Int (-63))] /\
      failed s = [] /\
      calls (net s) = [lit "123 Main St, Halifax, Nova Scotia, Canada"] /\
      load_cache (disk s) !! lit "123 Main St, Halifax, Nova Scotia, Canada"
      = Some (Some (Sample.Int 44), Some (Sample.Int (-63)))
  | Exc _ => False
  end.
Proof. vm_compute. repeat split. Qed.

Lemma existing_coordinates_skip_geocoding_witness :
  (exists s', step flags unreachable true elm (initial flags None) = Ret s' /\
     net s' = no_effects /\
     cache s' !! lit "123 Main St, Halifax, Nova Scotia, Canada"
     = Some (Some (Sample.Int 44), Some (Sample.Int (-63)))) /\
  (exists s', step flags unreachable true oak warm = Ret s' /\
     net s' = no_effects /\ lats s' = [Some (Sample.Int 45)]).
Proof.
  split.
  - destruct (proj1 (existing_coordinates_skip_geocoding flags unreachable
                       elm (initial flags None))
                (Sample.Int 44) (Sample.Int (-63)) eq_refl eq_refl)
      as (s' & Hstep & Hnet & _ & _ & _ & Hcache).
    exists s'. split; [exact Hstep|]. split; [exact Hnet|].
    rewrite Hcache, full_addr_elm. apply lookup_insert_eq.
  - destruct (proj2 (existing_coordinates_skip_geocoding flags unreachable
                       oak warm)
                true (Sample.Int 45) (Sample.Int (-63)) eq_refl)
      as (s' & Hstep & Hnet & Hrest).
    + rewrite full_addr_oak. apply lookup_singleton_eq.
    + exists s'. split; [exact Hstep|]. split; [exact Hnet|].
      by destruct (Hrest eq_refl) as (-> & _ & _).
Defined.

End BuilderFacts.


(** ** Status *)

Module StatusFacts.
Import Str StrFacts Status Js SampleFacts.

(** The first character of a printed number is no blank and, in lower
    case, not the first letter of a status. *)
Lemma lead_char (c : ascii) :
  Chars.is_digit c || mem c (lit "-niNI") = true ->
  Chars.py_isspace c = false /\ Chars.js_isspace c = false /\
  mem (Chars.to_lower c) (lit "cabr") = false.
Proof.
  destruct c as [b0 b1 b2 b3 b4 b5 b6 b7].
  destruct b0, b1, b2, b3, b4, b5, b6, b7; vm_compute;
    intros Hc; try discriminate Hc; repeat split.
Qed.

(** The three-way choice both functions end with. *)
Definition classify (v : str) : str :=
  if bool_decide (v ∈ [lit "current"; lit "active"; lit "both"])
  then lit "current"
  else if Str.eqb v (lit "recent") then lit "recent"
  else lit "none".

Lemma classify_other_lead (c : ascii) (rest : str) :
  mem c (lit "cabr") = false -> classify (c :: rest) = lit "none".
Proof.
  intros Hc. unfold classify, Str.eqb.
  rewrite bool_decide_eq_false_2.
  - rewrite bool_decide_eq_false_2; [reflexivity|].
    intros [= -> _]. discriminate Hc.
  - rewrite !elem_of_cons, elem_of_nil.
    intros [[= -> _]|[[= -> _]|[[= -> _]|[]]]]; discriminate Hc.
Qed.

Lemma classify_canonical (v : str) :
  classify v ∈ [lit "none"; lit "recent"; lit "current"].
Proof.
  unfold classify. repeat case_match; set_solver.
Qed.

Lemma lead_char_ascii (c : ascii) :
  Chars.is_digit c || mem c (lit "-niNI") = true -> Chars.is_ascii c = true.
Proof.
  destruct c as [b0 b1 b2 b3 b4 b5 b6 b7].
  destruct b0, b1, b2, b3, b4, b5, b6, b7; vm_compute;
    intros Hc; try discriminate Hc; reflexivity.
Qed.

Section Both.
Context `{PyFloat} `{PyText} `{JsNumber} `{JsText}.

Lemma normalize_status_value_classify (val : pyval) :
  normalize_status_value val = classify (py_lower (py_strip (py_str val))).
Proof. reflexivity. Qed.

Lemma normalizeStatus_classify (s : jsval) :
  normalizeStatus s
  = classify (js_toLowerCase (js_trim (to_string (or s (JStr []))))).
Proof.
  unfold normalizeStatus, classify, Str.eqb.
  generalize (js_toLowerCase (js_trim (to_string (or s (JStr []))))).
  intros v.
  destruct (bool_decide (v = lit "recent")) eqn:Er.
  - apply bool_decide_eq_true in Er as ->. reflexivity.
  - destruct (bool_decide (v ∈ _)) eqn:Ein.
    + apply bool_decide_eq_true in Ein.
      rewrite !elem_of_cons, elem_of_nil in Ein.
      destruct Ein as [->|[->|[->|[]]]]; reflexivity.
    + apply bool_decide_eq_false in Ein.
      rewrite !elem_of_cons, elem_of_nil in Ein.
      rewrite !bool_decide_eq_false_2; [reflexivity|..]; intros ->; tauto.
Qed.

(** On a text of ASCII characters the functions are those of [Str]. *)
Lemma py_ascii (t : str) :
  is_ascii t = true -> is_ascii (strip t) = true ->
  py_lower (py_strip t) = lower (strip t).
Proof.
  intros Ht Hs. by rewrite py_strip_ascii, py_lower_ascii.
Qed.

Lemma js_ascii (t : str) :
  is_ascii t = true -> is_ascii (trim t) = true ->
  js_toLowerCase (js_trim t) = lower (trim t).
Proof.
  intros Ht Hs. by rewrite js_trim_ascii, js_toLowerCase_ascii.
Qed.

(** The text of a number is no status. *)
Lemma py_number_is_none (t : str) :
  (exists c rest, t = c :: rest /\
     Chars.is_digit c || mem c (lit "-niNI") = true) ->
  exists c rest,
    py_lower (py_strip t) = c :: rest /\ mem c (lit "cabr") = false /\
    Chars.is_ascii c = true /\ Chars.py_isspace c = false.
Proof.
  intros (c & rest & -> & Hc).
  destruct (lead_char c Hc) as (Hpy & _ & Hlow).
  pose proof (lead_char_ascii c Hc) as Hascii.
  destruct (py_strip_head c rest Hascii Hpy) as [rest' ->].
  destruct (py_lower_head c rest' Hascii) as [rest'' ->].
  exists (Chars.to_lower c), rest''. split; [reflexivity|].
  split; [exact Hlow|]. clear -Hc.
  destruct c as [b0 b1 b2 b3 b4 b5 b6 b7].
  destruct b0, b1, b2, b3, b4, b5, b6, b7; vm_compute in Hc;
    try discriminate Hc; split; reflexivity.
Qed.

Lemma js_number_is_none (t : str) :
  (exists c rest, t = c :: rest /\
     Chars.is_digit c || mem c (lit "-niNI") = true) ->
  classify (js_toLowerCase (js_trim t)) = lit "none".
Proof.
  intros (c & rest & -> & Hc).
  destruct (lead_char c Hc) as (_ & Hjs & Hlow).
  pose proof (lead_char_ascii c Hc) as Hascii.
  destruct (js_trim_head c rest Hascii Hjs) as [rest' ->].
  destruct (js_toLowerCase_head c rest' Hascii) as [rest'' ->].
  by apply classify_other_lead.
Qed.

Lemma lead_weaken (c : ascii) (set : str) :
  (forall x, mem x set = true -> mem x (lit "-niNI") = true) ->
  Chars.is_digit c || mem c set = true ->
  Chars.is_digit c || mem c (lit "-niNI") = true.
Proof.
  intros Hset Hc. apply orb_true_iff in Hc as [Hc|Hc].
  - by rewrite Hc.
  - by rewrite (Hset c Hc), orb_true_r.
Qed.

Lemma float_str_leads (x : pyfloat) :
  exists c rest, float_str x = c :: rest /\
    Chars.is_digit c || mem c (lit "-niNI") = true.
Proof.
  destruct (float_str_lead x) as (c & rest & E & Hc).
  exists c, rest. split; [exact E|].
  apply (lead_weaken c (lit "-ni")); [|exact Hc].
  intros y. unfold mem. simpl. rewrite !orb_false_r.
  intros Hy. repeat (apply orb_true_iff in Hy as [Hy|Hy]);
    rewrite Hy; by rewrite ?orb_true_r.
Qed.

Lemma num_string_leads (x : jsnum) :
  exists c rest, num_string x = c :: rest /\
    Chars.is_digit c || mem c (lit "-niNI") = true.
Proof.
  destruct (num_string_lead x) as (c & rest & E & Hc).
  exists c, rest. split; [exact E|].
  apply (lead_weaken c (lit "-NI")); [|exact Hc].
  intros y. unfold mem. simpl. rewrite !orb_false_r.
  intros Hy. repeat (apply orb_true_iff in Hy as [Hy|Hy]);
    rewrite Hy; by rewrite ?orb_true_r.
Qed.

Lemma to_string_or_str (t : str) : to_string (or (JStr t) (JStr [])) = t.
Proof.
  unfold or, truthy, Str.eqb. destruct (bool_decide (t = [])) eqn:E.
  - apply bool_decide_eq_true in E. by subst.
  - reflexivity.
Qed.

Lemma classify_cases (v : str) :
  (v ∈ [lit "current"; lit "active"; lit "both"] ->
   classify v = lit "current") /\
  (v = lit "recent" -> classify v = lit "recent") /\
  (v ∉ [lit "current"; lit "active"; lit "both"; lit "recent"] ->
   classify v = lit "none").
Proof.
  unfold classify, Str.eqb. repeat split.
  - intros Hv. by rewrite bool_decide_eq_true_2.
  - intros ->. reflexivity.
  - intros Hv. rewrite !bool_decide_eq_false_2; [reflexivity|..].
    + intros ->. apply Hv. rewrite !elem_of_cons. tauto.
    + rewrite !elem_of_cons, elem_of_nil. intros Hin. apply Hv.
      rewrite !elem_of_cons. tauto.
Qed.

(** C8: both readers of a status, [normalize_status_value] of the
    pipeline and [normalizeStatus] of the page, return one of [none],
    [recent], [current]. A string that is, once stripped and put in lower
    case by the language ([strip] and [lower], [trim] and [toLowerCase]),
    [current], [active] or [both] gives [current]; [recent] gives
    [recent]; any other string gives [none]; so does every value that is
    not a string. *)
Theorem status_reads_are_canonical (val : pyval) (s : jsval) :
  (normalize_status_value val ∈ [lit "none"; lit "recent"; lit "current"] /\
   (forall t, val = PyStr t ->
      (py_lower (py_strip t) ∈ [lit "current"; lit "active"; lit "both"] ->
       normalize_status_value val = lit "current") /\
      (py_lower (py_strip t) = lit "recent" ->
       normalize_status_value val = lit "recent") /\
      (py_lower (py_strip t)
         ∉ [lit "current"; lit "active"; lit "both"; lit "recent"] ->
       normalize_status_value val = lit "none")) /\
   ((forall t, val <> PyStr t) -> normalize_status_value val = lit "none")) /\
  (normalizeStatus s ∈ [lit "none"; lit "recent"; lit "current"] /\
   (forall t, s = JStr t ->
      (js_toLowerCase (js_trim t)
         ∈ [lit "current"; lit "active"; lit "both"] ->
       normalizeStatus s = lit "current") /\
      (js_toLowerCase (js_trim t) = lit "recent" ->
       normalizeStatus s = lit "recent") /\
      (js_toLowerCase (js_trim t)
         ∉ [lit "current"; lit "active"; lit "both"; lit "recent"] ->
       normalizeStatus s = lit "none")) /\
   ((forall t, s <> JStr t) -> normalizeStatus s = lit "none")).
Proof.
  split.
  - rewrite normalize_status_value_classify. split; [|split].
    + apply classify_canonical.
    + intros t ->. apply classify_cases.
    + intros Hval. destruct val as [|[]|x|t].
      * cbn [py_str]. by rewrite py_ascii.
      * cbn [py_str]. by rewrite py_ascii.
      * cbn [py_str]. by rewrite py_ascii.
      * cbn [py_str].
        destruct (py_number_is_none (float_str x) (float_str_leads x))
          as (c & rest & -> & Hc & _).
        by apply classify_other_lead.
      * by destruct (Hval t).
  - rewrite normalizeStatus_classify. split; [|split].
    + apply classify_canonical.
    + intros t ->. rewrite to_string_or_str. apply classify_cases.
    + intros Hs. destruct s as [| |[]|x|t].
      * cbn [or truthy to_string]. by rewrite js_ascii.
      * cbn [or truthy to_string]. by rewrite js_ascii.
      * cbn [or truthy to_string]. by rewrite js_ascii.
      * cbn [or truthy to_string]. by rewrite js_ascii.
      * unfold or, truthy. destruct (num_falsy x).
        -- cbn [negb to_string]. by rewrite js_ascii.
        -- cbn [negb to_string]. apply js_number_is_none, num_string_leads.
      * by destruct (Hs t).
Qed.

End Both.

Lemma status_reads_are_canonical_witness :
  normalize_status_value (PyStr (lit "  Active ")) = lit "current" /\
  normalize_status_value (PyStr (lit "RECENT")) = lit "recent" /\
  normalize_status_value (PyStr (lit "pending")) = lit "none" /\
  normalize_status_value (PyNum Sample.NaN) = lit "none" /\
  normalizeStatus (JStr (lit "BOTH")) = lit "current" /\
  normalizeStatus (JStr (lit " Recent")) = lit "recent" /\
  normalizeStatus (JStr (lit "done")) = lit "none" /\
  normalizeStatus (JNum (Sample.Int 7)) = lit "none".
Proof.
  pose proof (fun val t => proj1 (proj2 (proj1
    (status_reads_are_canonical val JNull))) t) as Hpy.
  pose proof (fun val => proj2 (proj2 (proj1
    (status_reads_are_canonical val JNull)))) as Hpy_other.
  pose proof (fun s t => proj1 (proj2 (proj2
    (status_reads_are_canonical PyNone s))) t) as Hjs.
  pose proof (fun s => proj2 (proj2 (proj2
    (status_reads_are_canonical PyNone s)))) as Hjs_other.
  refine (conj _ (conj _ (conj _ (conj _ (conj _ (conj _ (conj _ _))))))).
  - apply (Hpy _ _ eq_refl). apply list_elem_of_In. vm_compute. tauto.
  - apply (Hpy _ _ eq_refl). reflexivity.
  - apply (Hpy _ _ eq_refl). rewrite list_elem_of_In. vm_compute.
    intros [E|[E|[E|[E|[]]]]]; discriminate E.
  - apply Hpy_other. discriminate.
  - apply (Hjs _ _ eq_refl). apply list_elem_of_In. vm_compute. tauto.
  - apply (Hjs _ _ eq_refl). reflexivity.
  - apply (Hjs _ _ eq_refl). rewrite list_elem_of_In. vm_compute.
    intros [E|[E|[E|[E|[]]]]]; discriminate E.
  - apply Hjs_other. discriminate.
Defined.

End StatusFacts.


(** ** View synchronizer *)

Module ViewFacts.
Import Str StrFacts Js SampleFacts SampleData.

Section Visible.
Context `{JsNumber} `{JsText}.

(** The text the search looks into: [School] or the empty string. *)
Definition school_text (r : rec) : str := to_string (or (School r) (JStr [])).
Definition address_text (r : rec) : str := to_string (or (Address r) (JStr [])).

(** From the words of the spec: the status is selected, the group is
    selected or no group is, and the search text is empty or is, case
    apart, a substring of the school name or of the address. *)
Definition stated_visible (ui : controls) (r : rec) : Prop :=
  normalizeStatus (Status r) ∈ statusChk ui /\
  (has (groupSel ui) (or (Group r) (JStr [])) = true \/ groupSel ui = []) /\
  (searchBox ui = [] \/
   contains (js_toLowerCase (searchBox ui))
     (js_toLowerCase (school_text r)) = true \/
   contains (js_toLowerCase (searchBox ui))
     (js_toLowerCase (address_text r)) = true).

Lemma set_size_zero (groups : list str) :
  Nat.eqb (length (remove_dups groups)) 0 = true <-> groups = [].
Proof.
  rewrite Nat.eqb_eq. split; [|by intros ->].
  intros Hlen. destruct groups as [|g gs]; [reflexivity|].
  apply length_zero_iff_nil in Hlen.
  assert (g ∈ remove_dups (g :: gs)) as Hg
    by (apply elem_of_remove_dups; left).
  rewrite Hlen in Hg. by apply elem_of_nil in Hg.
Qed.

(** The text [visiblePredicate] searches in. *)
Definition haystack (r : rec) : str :=
  js_toLowerCase (school_text r ++ lit " " ++ address_text r).

Lemma haystack_covers (q : str) (r : rec) :
  contains q (js_toLowerCase (school_text r)) = true \/
  contains q (js_toLowerCase (address_text r)) = true ->
  contains q (haystack r) = true.
Proof.
  unfold haystack. rewrite js_toLowerCase_blank. intros [Hq|Hq].
  - by apply contains_app_l.
  - by do 2 apply contains_app_r.
Qed.

(** C3 (amended): a record is shown if and only if its normalized status
    is among the checked ones, and no group is selected or its group is
    among the selected ones, and the search text, after [trim] and
    [toLowerCase], is empty or is a substring of the [toLowerCase] of the
    text made of the school name, a blank and the address. A search text
    found in the lower-case school name or in the lower-case address is
    found in that text. *)
Theorem visiblePredicate_iff (ui : controls) (r : rec) :
  let q := js_toLowerCase (js_trim (searchBox ui)) in
  (visiblePredicate ui r = true <->
   normalizeStatus (Status r) ∈ statusChk ui /\
   (groupSel ui = [] \/ has (groupSel ui) (or (Group r) (JStr [])) = true) /\
   (q = [] \/
    contains q
      (js_toLowerCase (to_string (or (School r) (JStr [])) ++ lit " "
                       ++ to_string (or (Address r) (JStr [])))) = true)) /\
  (contains q (js_toLowerCase (to_string (or (School r) (JStr [])))) = true \/
   contains q (js_toLowerCase (to_string (or (Address r) (JStr [])))) = true ->
   contains q
     (js_toLowerCase (to_string (or (School r) (JStr [])) ++ lit " "
                      ++ to_string (or (Address r) (JStr [])))) = true).
Proof.
  intros q. split; [|apply haystack_covers].
  unfold visiblePredicate. fold q.
  assert (has (statusChk ui) (JStr (normalizeStatus (Status r))) = true
          <-> normalizeStatus (Status r) ∈ statusChk ui) as Hs
    by apply bool_decide_eq_true.
  pose proof (eqb_eq q []) as Hq.
  pose proof (set_size_zero (groupSel ui)) as Hsize.
  revert Hs Hq Hsize.
  generalize (contains q
                (js_toLowerCase (to_string (or (School r) (JStr []))
                                 ++ lit " "
                                 ++ to_string (or (Address r) (JStr []))))).
  generalize (has (groupSel ui) (or (Group r) (JStr []))).
  generalize (has (statusChk ui) (JStr (normalizeStatus (Status r)))).
  generalize (Str.eqb q []).
  generalize (Nat.eqb (length (remove_dups (groupSel ui))) 0).
  intros noGroups noQuery inStatus inGroup found Hs Hq Hsize.
  destruct noGroups, noQuery, inStatus, inGroup, found; simpl;
    intuition (try discriminate; try congruence).
Qed.

End Visible.

Definition all_statuses : list str := [lit "none"; lit "recent"; lit "current"].

(** C3, as stated, fails: a search text that runs over the blank between
    the school name and the address shows a record that has it neither in
    its school name nor in its address. *)
Lemma search_spans_school_and_address :
  let ui := {| statusChk := all_statuses; groupSel := [];
               searchBox := lit "ps 12" |} in
  visiblePredicate ui elm_ps = true /\ ~ stated_visible ui elm_ps.
Proof.
  intros ui. split; [vm_compute; reflexivity|].
  intros (_ & _ & [Hq|[Hq|Hq]]); vm_compute in Hq; discriminate Hq.
Qed.

Lemma visiblePredicate_iff_witness :
  let ui := {| statusChk := all_statuses; groupSel := [lit "HRCE"];
               searchBox := lit " ELM " |} in
  contains (lit "elm") (lower (lit "Elm PS")) = true /\
  visiblePredicate ui elm_ps = true.
Proof.
  intros ui.
  assert (contains (lit "elm") (lower (lit "Elm PS")) = true) as Hq
    by (vm_compute; reflexivity).
  split; [exact Hq|].
  destruct (visiblePredicate_iff ui elm_ps) as [Hiff Hfound].
  apply Hiff. split; [|split].
  - apply list_elem_of_In. vm_compute. tauto.
  - right. vm_compute. reflexivity.
  - right. apply Hfound. left. exact Hq.
Defined.

End ViewFacts.


(** ** Marker store *)

Module StoreFacts.
Import Js SampleFacts SampleData.

Section Undo.
Context `{JsNumber}.

Lemma spread_id (r : rec) : spread r = r.
Proof. by destruct r. Qed.

Lemma splice_remove {A} (i : nat) (l : list A) :
  (i < length l)%nat -> splice i 1 [] l = take i l ++ drop (S i) l.
Proof.
  intros Hi. unfold splice. rewrite Nat.min_l by lia. simpl.
  by replace (i + 1)%nat with (S i) by lia.
Qed.

Lemma splice_insert {A} (i : nat) (x : A) (l : list A) :
  (i <= length l)%nat -> splice i 0 [x] l = take i l ++ x :: drop i l.
Proof.
  intros Hi. unfold splice. rewrite Nat.min_l by lia. simpl.
  by rewrite Nat.add_0_r.
Qed.

(** Taking an element out and putting it back at its index. *)
Lemma splice_remove_insert {A} (i : nat) (x : A) (l : list A) :
  l !! i = Some x ->
  splice (Nat.min i (length (splice i 1 [] l))) 0 [x] (splice i 1 [] l) = l.
Proof.
  intros Hx. assert (i < length l)%nat as Hi by (by eapply lookup_lt_Some).
  rewrite splice_remove by exact Hi.
  assert (length (take i l) = i) as Htake by (rewrite length_take; lia).
  assert (length (take i l ++ drop (S i) l) = length l - 1)%nat as Hlen
    by (rewrite length_app, length_drop, Htake; lia).
  rewrite Hlen, Nat.min_l by lia.
  rewrite splice_insert by lia.
  rewrite take_app_length' by (symmetry; exact Htake).
  rewrite drop_app_length' by (symmetry; exact Htake).
  by apply take_drop_middle.
Qed.

(** C2: deleting the record at a valid index and undoing at once gives
    back the list of records as it was, the record at its index and the
    list no longer than before, and the undo stack as it was; the markers
    are those of the restored list. With nothing on the undo stack,
    [undoDelete] changes nothing but the message shown. *)
Theorem delete_then_undo_restores (p : page) (i : nat) :
  ((i < length (DATA p))%nat ->
   DATA (undoDelete (_delete i p)) = DATA p /\
   UNDO_STACK (undoDelete (_delete i p)) = UNDO_STACK p /\
   DATA (undoDelete (_delete i p)) !! i = DATA p !! i /\
   length (DATA (undoDelete (_delete i p))) = length (DATA p) /\
   length (DATA (_delete i p)) = (length (DATA p) - 1)%nat /\
   markers (undoDelete (_delete i p)) = rebuildMarkers (DATA p) /\
   moveIndex (undoDelete (_delete i p)) = moveIndex p /\
   toast (undoDelete (_delete i p)) = Some (lit "Restored.")) /\
  (UNDO_STACK p = [] ->
   DATA (undoDelete p) = DATA p /\
   UNDO_STACK (undoDelete p) = UNDO_STACK p /\
   markers (undoDelete p) = markers p /\
   moveIndex (undoDelete p) = moveIndex p /\
   toast (undoDelete p) = Some (lit "Nothing to undo.")).
Proof.
  split.
  - intros Hi. destruct (lookup_lt_is_Some_2 _ _ Hi) as [r Hr].
    assert (length (DATA (_delete i p)) = length (DATA p) - 1)%nat as Hlen.
    { unfold _delete. rewrite Hr. cbn [DATA].
      rewrite splice_remove, length_app, length_take, length_drop by exact Hi.
      lia. }
    assert (DATA (undoDelete (_delete i p)) = DATA p) as Hdata.
    { unfold _delete. rewrite Hr. unfold undoDelete. cbn [UNDO_STACK DATA].
      rewrite last_snoc. cbn [type idx a_rec].
      replace (Str.eqb (lit "delete") (lit "delete")) with true
        by (symmetry; by apply bool_decide_eq_true).
      cbn [DATA]. rewrite spread_id. by apply splice_remove_insert. }
    split; [exact Hdata|]. rewrite Hdata. repeat split; try exact Hlen.
    all: unfold _delete; rewrite Hr; unfold undoDelete;
      cbn [UNDO_STACK DATA]; rewrite last_snoc; cbn [type idx a_rec];
      replace (Str.eqb (lit "delete") (lit "delete")) with true
        by (symmetry; by apply bool_decide_eq_true).
    + cbn [UNDO_STACK]. apply removelast_last.
    + cbn [markers]. rewrite spread_id. f_equal.
      by apply splice_remove_insert.
    + reflexivity.
    + reflexivity.
  - intros Hempty. unfold undoDelete. rewrite Hempty. by cbn.
Qed.

End Undo.

Lemma delete_then_undo_restores_witness :
  (1 < length (DATA session))%nat /\
  DATA (undoDelete (_delete 1 session)) = [elm_ps; oak_ps; pine] /\
  UNDO_STACK (undoDelete (_delete 1 session)) = [] /\
  toast (undoDelete session) = Some (lit "Nothing to undo.").
Proof.
  assert (1 < length (DATA session))%nat as Hi by (simpl; lia).
  destruct (delete_then_undo_restores session 1) as [Hundo Hempty].
  destruct (Hundo Hi) as (Hdata & Hstack & _).
  destruct (Hempty eq_refl) as (_ & _ & _ & _ & Htoast).
  split; [exact Hi|]. split; [exact Hdata|]. split; [exact Hstack|].
  exact Htoast.
Defined.

End StoreFacts.


(** ** CSV export *)

Module CsvFacts.
Import Str Js Csv SampleFacts SampleData.

(** Every double quote doubled. *)
Definition esc (t : str) : str :=
  flat_map (fun c => if Ascii.eqb c dquote then [dquote; dquote] else [c]) t.

(** The text [downloadCSV] writes for a field of content [t]. *)
Definition cell_text (t : str) : str :=
  if needs_quotes (esc t) then [dquote] ++ esc t ++ [dquote] else esc t.

Definition line_text (fields : list str) : str :=
  Str.join [comma] (map cell_text fields).

(** A field that a reader gets back: with [cr] on, one without a
    carriage return outside quotes. *)
Definition safe (cr : bool) (t : str) : Prop := cr && bare_cr t = false.

(** The end of a field: the end of the text, a comma or a line feed. *)
Definition at_break (rest : str) : Prop :=
  rest = [] \/ exists rest', rest = comma :: rest' \/ rest = Chars.newline :: rest'.

(** What the reader does at a break once it has the field [t]. *)
Definition finish (cr : bool) (t : str) (row : list str)
    (rows : list (list str)) (rest : str) : option (list (list str)) :=
  match rest with
  | [] => Some (rows ++ [row ++ [t]])
  | c :: rest' =>
      if Ascii.eqb c comma then read cr Start [] (row ++ [t]) rows rest'
      else read cr Start [] [] (rows ++ [row ++ [t]]) rest'
  end.

Lemma read_at_break (cr : bool) (m : mode) (t : str) (row : list str)
    (rows : list (list str)) (rest : str) :
  m <> Quoted -> m <> Eol -> at_break rest ->
  read cr m t row rows rest = finish cr t row rows rest.
Proof.
  intros Hm He [->|[rest' [->| ->]]].
  - by destruct m.
  - by destruct m.
  - by destruct m.
Qed.

Lemma needs_quotes_cons (c : ascii) (t : str) :
  needs_quotes (c :: t) = false ->
  Ascii.eqb c dquote = false /\ Ascii.eqb c comma = false /\
  Ascii.eqb c Chars.newline = false /\ needs_quotes t = false.
Proof.
  unfold needs_quotes. simpl. rewrite !orb_false_iff. tauto.
Qed.

(** A text without a carriage return that would end a record. *)
Definition no_cr (cr : bool) (t : str) : Prop := cr && mem Chars.cr t = false.

Lemma no_cr_cons (cr : bool) (c : ascii) (t : str) :
  no_cr cr (c :: t) -> cr && Ascii.eqb c Chars.cr = false /\ no_cr cr t.
Proof.
  unfold no_cr, mem. cbn [existsb]. destruct cr; [|done]. cbn [andb].
  rewrite orb_false_iff. intros [Hc Ht]. split; [|exact Ht].
  rewrite <- Hc. destruct (Ascii.eqb_spec c Chars.cr) as [->|Hne].
  - by rewrite Ascii.eqb_refl.
  - symmetry. apply Ascii.eqb_neq. congruence.
Qed.

Lemma safe_plain (cr : bool) (t : str) :
  safe cr t -> needs_quotes t = false -> no_cr cr t.
Proof.
  unfold safe, no_cr, bare_cr. intros Hs Hq. rewrite Hq in Hs.
  by rewrite andb_true_r in Hs.
Qed.

Lemma read_plain (cr : bool) (t field : str) (row : list str)
    (rows : list (list str)) (rest : str) :
  needs_quotes t = false -> no_cr cr t ->
  read cr Bare field row rows (t ++ rest)
  = read cr Bare (field ++ t) row rows rest.
Proof.
  revert field. induction t as [|c t IH]; intros field Ht Hcr.
  - by rewrite app_nil_r.
  - apply needs_quotes_cons in Ht as (Hq & Hc & Hn & Ht).
    apply no_cr_cons in Hcr as [Hr Hcr].
    cbn [app read]. rewrite Hc, Hn, Hr, Hq, IH by assumption.
    by rewrite <- app_assoc.
Qed.

Lemma read_plain_start (cr : bool) (t : str) (row : list str)
    (rows : list (list str)) (rest : str) :
  needs_quotes t = false -> no_cr cr t -> at_break rest ->
  read cr Start [] row rows (t ++ rest) = finish cr t row rows rest.
Proof.
  intros Ht Hcr Hrest. destruct t as [|c t].
  - by apply read_at_break.
  - apply needs_quotes_cons in Ht as (Hq & Hc & Hn & Ht).
    apply no_cr_cons in Hcr as [Hr Hcr].
    cbn [app read]. rewrite Hc, Hn, Hr, Hq, read_plain by assumption.
    by apply read_at_break.
Qed.

Lemma read_quoted (cr : bool) (t field : str) (row : list str)
    (rows : list (list str)) (rest : str) :
  at_break rest ->
  read cr Quoted field row rows (esc t ++ dquote :: rest)
  = finish cr (field ++ t) row rows rest.
Proof.
  intros Hrest. revert field. induction t as [|c t IH]; intros field.
  - cbn [esc flat_map app read]. rewrite Ascii.eqb_refl, app_nil_r.
    by apply read_at_break.
  - change (esc (c :: t))
      with ((if Ascii.eqb c dquote then [dquote; dquote] else [c]) ++ esc t).
    destruct (Ascii.eqb c dquote) eqn:Hq.
    + apply Ascii.eqb_eq in Hq as ->. cbn [app read].
      rewrite !Ascii.eqb_refl.
      replace (Ascii.eqb dquote comma) with false by reflexivity.
      replace (Ascii.eqb dquote Chars.newline) with false by reflexivity.
      replace (cr && Ascii.eqb dquote Chars.cr) with false
        by (by destruct cr).
      cbn iota. rewrite IH. by rewrite <- app_assoc.
    + cbn [app read]. rewrite Hq, IH. by rewrite <- app_assoc.
Qed.

Lemma esc_plain (t : str) : needs_quotes (esc t) = false -> esc t = t.
Proof.
  induction t as [|c t IH]; [reflexivity|]. simpl.
  destruct (Ascii.eqb c dquote) eqn:Hq.
  - apply Ascii.eqb_eq in Hq as ->. discriminate.
  - simpl. intros Ht. apply needs_quotes_cons in Ht as (_ & _ & _ & Ht).
    by rewrite IH.
Qed.

(** Escaping adds or removes no character that calls for quotes. *)
Lemma needs_quotes_esc (t : str) : needs_quotes (esc t) = needs_quotes t.
Proof.
  induction t as [|c t IH]; [reflexivity|].
  change (esc (c :: t))
    with ((if Ascii.eqb c dquote then [dquote; dquote] else [c]) ++ esc t).
  unfold needs_quotes in *. rewrite existsb_app, IH.
  destruct (Ascii.eqb c dquote) eqn:Hq.
  - apply Ascii.eqb_eq in Hq as ->. reflexivity.
  - simpl. by rewrite orb_false_r.
Qed.

(** The reader gets back the content of a written field. *)
Lemma read_cell (cr : bool) (t : str) (row : list str)
    (rows : list (list str)) (rest : str) :
  safe cr t -> at_break rest ->
  read cr Start [] row rows (cell_text t ++ rest) = finish cr t row rows rest.
Proof.
  intros Hsafe Hrest. unfold cell_text.
  destruct (needs_quotes (esc t)) eqn:Ht.
  - rewrite <- !app_assoc. cbn [app read].
    rewrite Ascii.eqb_refl.
    replace (Ascii.eqb dquote comma) with false by reflexivity.
    replace (Ascii.eqb dquote Chars.newline) with false by reflexivity.
    replace (cr && Ascii.eqb dquote Chars.cr) with false by (by destruct cr).
    by rewrite read_quoted.
  - rewrite (esc_plain t Ht). rewrite needs_quotes_esc in Ht.
    apply read_plain_start; [exact Ht| |exact Hrest].
    by apply safe_plain.
Qed.

(** A written line ends at the end of the text or at a line feed. *)
Lemma read_line (cr : bool) (fields row : list str) (rows : list (list str))
    (rest : str) :
  fields <> [] -> Forall (safe cr) fields ->
  rest = [] \/ (exists rest', rest = Chars.newline :: rest') ->
  read cr Start [] row rows (line_text fields ++ rest)
  = match rest with
    | [] => Some (rows ++ [row ++ fields])
    | _ :: rest' => read cr Start [] [] (rows ++ [row ++ fields]) rest'
    end.
Proof.
  intros Hne Hsafe Hrest. revert row.
  induction fields as [|t fields IH]; [done|]. intros row.
  apply Forall_cons in Hsafe as [Ht Hsafe].
  destruct fields as [|t' fields].
  - unfold line_text. cbn [map join]. rewrite read_cell.
    + destruct Hrest as [->|[rest' ->]]; reflexivity.
    + exact Ht.
    + destruct Hrest as [->|[rest' ->]]; [by left|right; eauto].
  - unfold line_text in *.
    change (Str.join [comma] (map cell_text (t :: t' :: fields)))
      with (cell_text t ++ [comma]
            ++ Str.join [comma] (map cell_text (t' :: fields))).
    rewrite <- !app_assoc. rewrite read_cell by (exact Ht || right; eauto).
    cbn [finish app]. rewrite Ascii.eqb_refl.
    rewrite IH by done.
    rewrite <- !app_assoc. reflexivity.
Qed.

Lemma read_lines (cr : bool) (lines rows : list (list str)) :
  lines <> [] ->
  Forall (fun fields => fields <> [] /\ Forall (safe cr) fields) lines ->
  read cr Start [] [] rows (Str.join [Chars.newline] (map line_text lines))
  = Some (rows ++ lines).
Proof.
  intros Hne Hall. revert rows.
  induction lines as [|l lines IH]; [done|]. intros rows.
  apply Forall_cons in Hall as [[Hl Hsafe] Hall].
  destruct lines as [|l' lines].
  - cbn [map join]. rewrite <- (app_nil_r (line_text l)).
    rewrite read_line by (done || by left). reflexivity.
  - change (Str.join [Chars.newline] (map line_text (l :: l' :: lines)))
      with (line_text l ++ [Chars.newline]
            ++ Str.join [Chars.newline] (map line_text (l' :: lines))).
    rewrite read_line by (done || right; eauto).
    cbn [app]. rewrite IH by done. by rewrite <- app_assoc.
Qed.

(** The six names of the header line. *)
Definition header_names : list str :=
  [lit "School"; lit "Address"; lit "Group"; lit "lat"; lit "lon";
   lit "Status"].

Lemma header_safe (cr : bool) : Forall (safe cr) header_names.
Proof. repeat constructor; by destruct cr. Qed.

Section Download.
Context `{JsNumber}.

Lemma escaped_field_text (v : jsval) : escaped v = esc (field_text v).
Proof. by destruct v. Qed.

Lemma cell_field_text (v : jsval) : cell v = cell_text (field_text v).
Proof. unfold cell, cell_text. by rewrite escaped_field_text. Qed.

(** The fields of a record, as text, in the order of the header. *)
Definition fields_of (row : rec) : list str := map field_text (columns row).


Lemma record_line (row : rec) :
  Str.join [comma] (map cell (columns row)) = line_text (fields_of row).
Proof.
  unfold line_text, fields_of. rewrite map_map. f_equal.
  apply map_ext. intros v. apply cell_field_text.
Qed.

Lemma export_lines (data : list rec) :
  [Str.join [comma] headers]
  ++ map (fun row => Str.join [comma] (map cell (columns row))) data
  = map line_text (header_names :: map fields_of data).
Proof.
  cbn [map app]. f_equal. rewrite map_map. apply map_ext. intros row.
  apply record_line.
Qed.

(** What a reader makes of the export of a store that is not empty. *)
Lemma export_read (cr : bool) (data : list rec) :
  data <> [] ->
  Forall (fun row => Forall (safe cr) (fields_of row)) data ->
  exists text,
    downloadCSV data = Some text /\
    read cr Start [] [] [] text = Some (header_names :: map fields_of data).
Proof.
  intros Hne Hsafe. unfold downloadCSV.
  destruct data as [|row0 data0] eqn:Edata; [done|]. rewrite <- Edata in *.
  replace (Nat.eqb (length data) 0) with false by (by rewrite Edata).
  eexists. split; [reflexivity|].
  rewrite export_lines. rewrite read_lines; [done|done|].
  constructor; [split; [done|apply header_safe]|].
  apply Forall_map. eapply Forall_impl; [exact Hsafe|].
  intros row Hrow. split; [done|exact Hrow].
Qed.


(** C10: with no record in the store the export returns at once with
    nothing written, not even the header; and that is the only case in
    which it writes nothing. *)
Theorem export_of_empty_store (data : list rec) :
  downloadCSV [] = None /\ (downloadCSV data = None <-> data = []).
Proof.
  split; [reflexivity|]. unfold downloadCSV.
  destruct data; simpl; split; intros; done.
Qed.

End Download.




End CsvFacts.


(** * Further properties of the code *)

(** ** The runs of the geocoding client *)

Module ClientRuns.
Import Geocode SampleFacts.

Lemma variants_cons (address : str) :
  exists rest, variants address = address :: rest.
Proof.
  unfold variants.
  generalize (Str.strip (Str.strip_chars (lit ", ")
    (Str.replace (lit "  ") (lit " ")
       (Re.sub true POSTAL_PAT [] address)))).
  generalize (Re.sub false REGION_TAIL (lit ", Nova Scotia, Canada") address).
  intros short no_postal.
  destruct (negb (Str.eqb no_postal address)); cbn [app];
    destruct (_ && _); cbn [app]; eauto.
Qed.

Lemma variants_length (address : str) : (length (variants address) <= 3)%nat.
Proof.
  unfold variants.
  generalize (Str.strip (Str.strip_chars (lit ", ")
    (Str.replace (lit "  ") (lit " ")
       (Re.sub true POSTAL_PAT [] address)))).
  generalize (Re.sub false REGION_TAIL (lit ", Nova Scotia, Canada") address).
  intros short no_postal.
  destruct (negb (Str.eqb no_postal address)); cbn [app];
    destruct (_ && _); cbn [app]; simpl; lia.
Qed.

(** X1: the variants of an address start with the address itself, are
    pairwise different and are three at most. *)
Theorem variants_shape (address : str) :
  head (variants address) = Some address /\
  NoDup (variants address) /\
  (length (variants address) <= 3)%nat.
Proof.
  unfold variants.
  generalize (Str.strip (Str.strip_chars (lit ", ")
    (Str.replace (lit "  ") (lit " ")
       (Re.sub true POSTAL_PAT [] address)))).
  generalize (Re.sub false REGION_TAIL (lit ", Nova Scotia, Canada") address).
  intros short no_postal. unfold Str.eqb.
  destruct (bool_decide (no_postal = address)) eqn:En;
    [apply bool_decide_eq_true in En|apply bool_decide_eq_false in En];
    (destruct (bool_decide (short = address)) eqn:Es;
     [apply bool_decide_eq_true in Es|apply bool_decide_eq_false in Es]);
    cbn [negb andb app];
    try (destruct (bool_decide (short ∈ _)) eqn:Ein;
         [apply bool_decide_eq_true in Ein|apply bool_decide_eq_false in Ein];
         rewrite !elem_of_cons, elem_of_nil in Ein);
    cbn [negb andb app];
    (split; [reflexivity|split; [|simpl; lia]]);
    repeat (apply NoDup_cons; split); try apply NoDup_nil_2;
    rewrite ?elem_of_cons, ?elem_of_nil; intuition congruence.
Qed.

Section Runs.
Context `{PyFloat}.

(** What the inner loop adds to the effects: [k] calls with the variant,
    [k] no more than the iterations left, and no more sleeps than calls. *)
Lemma attempts_trace (svc : service) (backoff : pyfloat) (v : str)
    (i n : nat) (w : effects) :
  exists k slept,
    calls (attempts svc backoff v i n w).2 = calls w ++ repeat v k /\
    sleeps (attempts svc backoff v i n w).2 = sleeps w ++ slept /\
    (k <= n)%nat /\ (length slept <= k)%nat /\
    ((attempts svc backoff v i n w).1 = Ret None \/
     (exists la lo, (attempts svc backoff v i n w).1 = Ret (Some (la, lo))) \/
     (attempts svc backoff v i n w).1 = Exc NotAnException).
Proof.
  revert i w. induction n as [|n IH]; intros i w.
  - exists 0%nat, []. simpl. rewrite !app_nil_r. repeat split; auto.
  - simpl. destruct (svc (length (calls w)) v) as [la lo| |[]].
    + exists 1%nat, []. simpl. rewrite app_nil_r.
      repeat split; try lia. right. left. eauto.
    + destruct (IH (S i) (call v w)) as (k & slept & Hc & Hs & Hk & Hl & Hr).
      exists (S k), slept. rewrite Hc, Hs. simpl. rewrite <- app_assoc.
      repeat split; auto; lia.
    + destruct (IH (S i) (sleep (delay backoff i) (call v w)))
        as (k & slept & Hc & Hs & Hk & Hl & Hr).
      exists (S k), (delay backoff i :: slept). rewrite Hc, Hs. simpl.
      rewrite <- !app_assoc. repeat split; auto; simpl; lia.
    + destruct (IH (S i) (sleep (delay backoff i) (call v w)))
        as (k & slept & Hc & Hs & Hk & Hl & Hr).
      exists (S k), (delay backoff i :: slept). rewrite Hc, Hs. simpl.
      rewrite <- !app_assoc. repeat split; auto; simpl; lia.
    + destruct (IH (S i) (sleep (delay backoff i) (call v w)))
        as (k & slept & Hc & Hs & Hk & Hl & Hr).
      exists (S k), (delay backoff i :: slept). rewrite Hc, Hs. simpl.
      rewrite <- !app_assoc. repeat split; auto; simpl; lia.
    + exists 1%nat, []. simpl. rewrite app_nil_r.
      repeat split; try lia. right. right. reflexivity.
Qed.

Lemma over_variants_trace (svc : service) (backoff : pyfloat)
    (retries : nat) (vs : list str) (w : effects) :
  exists sent slept,
    calls (over_variants svc backoff retries vs w).2 = calls w ++ sent /\
    sleeps (over_variants svc backoff retries vs w).2 = sleeps w ++ slept /\
    (length sent <= retries * length vs)%nat /\
    (length slept <= length sent)%nat /\
    Forall (fun q => q ∈ vs) sent /\
    ((over_variants svc backoff retries vs w).1 = Ret (None, None) \/
     (exists la lo,
        (over_variants svc backoff retries vs w).1 = Ret (Some la, Some lo)) \/
     (over_variants svc backoff retries vs w).1 = Exc NotAnException).
Proof.
  revert w. induction vs as [|v vs IH]; intros w.
  - exists [], []. simpl. rewrite !app_nil_r. repeat split; auto; lia.
  - simpl.
    destruct (attempts_trace svc backoff v 0 retries w)
      as (k & slept & Hc & Hs & Hk & Hl & Hr).
    assert (Forall (fun q => q ∈ v :: vs) (repeat v k)) as Hv.
    { apply Forall_forall. intros q Hq. apply list_elem_of_In in Hq.
      apply repeat_spec in Hq as ->. apply list_elem_of_here. }
    destruct (attempts svc backoff v 0 retries w) as [[[[la lo]|]|e] w1];
      simpl in *.
    + exists (repeat v k), slept. rewrite repeat_length.
      repeat split; auto; try nia. right. left. eauto.
    + destruct (IH w1) as (sent & slept' & Hc' & Hs' & Hn' & Hl' & Hin & Hr').
      exists (repeat v k ++ sent), (slept ++ slept').
      rewrite Hc', Hs', Hc, Hs, <- !app_assoc, !length_app, repeat_length.
      repeat split; auto; try nia.
      apply Forall_app. split; [exact Hv|].
      eapply Forall_impl; [exact Hin|]. intros q Hq. by apply list_elem_of_further.
    + exists (repeat v k), slept. rewrite repeat_length.
      repeat split; auto; try nia.
      destruct Hr as [Hr|[(la & lo & Hr)|Hr]]; try discriminate.
      right. right. by injection Hr as ->.
Qed.

(** X2: whatever the service answers, a run of [geocode_address] only
    adds to the effects: it sends no more than [retries] queries for each
    of the three variants at most, every query is a variant of the
    address, and it sleeps no more often than it calls. *)
Theorem geocode_call_budget (svc : service) (address : str) (retries : Z)
    (backoff : pyfloat) (w : effects) :
  exists sent slept,
    calls (geocode_address svc address retries backoff w).2
    = calls w ++ sent /\
    sleeps (geocode_address svc address retries backoff w).2
    = sleeps w ++ slept /\
    (length sent <= Z.to_nat retries * 3)%nat /\
    (length slept <= length sent)%nat /\
    Forall (fun q => q ∈ variants address) sent.
Proof.
  unfold geocode_address.
  destruct (over_variants_trace svc backoff (Z.to_nat retries)
              (variants address) w)
    as (sent & slept & Hc & Hs & Hn & Hl & Hin & _).
  exists sent, slept. repeat split; auto.
  pose proof (variants_length address) as Hlen. nia.
Qed.

(** X3: [geocode_address] returns two numbers or two [None], never one
    of each; the only exception it lets through is one that is no
    [Exception]. *)
Theorem geocode_result_shape (svc : service) (address : str) (retries : Z)
    (backoff : pyfloat) (w : effects) :
  (geocode_address svc address retries backoff w).1 = Ret (None, None) \/
  (exists la lo,
     (geocode_address svc address retries backoff w).1
     = Ret (Some la, Some lo)) \/
  (geocode_address svc address retries backoff w).1 = Exc NotAnException.
Proof.
  unfold geocode_address.
  destruct (over_variants_trace svc backoff (Z.to_nat retries)
              (variants address) w)
    as (sent & slept & _ & _ & _ & _ & _ & Hr).
  exact Hr.
Qed.

(** [k] attempts without a result and without an exception: no sleep. *)
Lemma attempts_empty_run (svc : service) (backoff : pyfloat) (v : str)
    (k i n : nat) (w : effects) :
  (forall j, (j < k)%nat -> svc (length (calls w) + j)%nat v = NoResult) ->
  attempts svc backoff v i (k + n) w
  = attempts svc backoff v (i + k) n
      {| calls := calls w ++ repeat v k; sleeps := sleeps w |}.
Proof.
  revert i w. induction k as [|k IH]; intros i w Hnone.
  - simpl. rewrite app_nil_r, Nat.add_0_r. by destruct w.
  - pose proof (Hnone 0%nat ltac:(lia)) as H0. rewrite Nat.add_0_r in H0.
    change (S k + n)%nat with (S (k + n)). simpl. rewrite H0.
    rewrite IH.
    + simpl. rewrite <- app_assoc. simpl.
      replace (S (i + k)) with (i + S k)%nat by lia. reflexivity.
    + intros j Hj. simpl. rewrite length_app. simpl.
      replace (length (calls w) + 1 + j)%nat
        with (length (calls w) + S j)%nat by lia.
      apply Hnone. lia.
Qed.

(** X4: an empty answer is no reason to wait: when the service finds
    nothing for any query, every variant is asked [retries] times in a
    row, nothing is slept, and the result is the pair of [None]. *)
Theorem empty_answers_are_retried_without_sleep (svc : service)
    (address : str) (retries : Z) (backoff : pyfloat) (w : effects) :
  (forall n q, svc n q = NoResult) ->
  geocode_address svc address retries backoff w
  = (Ret (None, None),
     {| calls := calls w
                 ++ flat_map (fun v => repeat v (Z.to_nat retries))
                      (variants address);
        sleeps := sleeps w |}).
Proof.
  intros Hnone. unfold geocode_address.
  generalize (Z.to_nat retries) (variants address). intros r vs.
  revert w. induction vs as [|v vs IH]; intros w.
  - simpl. rewrite app_nil_r. by destruct w.
  - simpl. replace r with (r + 0)%nat at 1 by lia.
    rewrite attempts_empty_run by (intros; apply Hnone).
    simpl. rewrite IH. simpl. by rewrite <- app_assoc.
Qed.

(** X5: the first location the service gives is the answer. When the
    first [k] calls for the address itself, [k] below [retries], give
    nothing, and the next one gives a location, the function returns that
    location after [k + 1] calls, all with the address as written, and
    has not slept. *)
Theorem first_location_wins (svc : service) (address : str) (retries : Z)
    (backoff : pyfloat) (w : effects) (k : nat) (la lo : pyfloat) :
  (k < Z.to_nat retries)%nat ->
  (forall j, (j < k)%nat ->
     svc (length (calls w) + j)%nat address = NoResult) ->
  svc (length (calls w) + k)%nat address = Found la lo ->
  geocode_address svc address retries backoff w
  = (Ret (Some la, Some lo),
     {| calls := calls w ++ repeat address (S k); sleeps := sleeps w |}).
Proof.
  intros Hk Hnone Hfound. unfold geocode_address.
  destruct (variants_cons address) as [rest ->]. simpl.
  replace (Z.to_nat retries) with (k + S (Z.to_nat retries - S k))%nat by lia.
  rewrite attempts_empty_run by exact Hnone.
  simpl. rewrite length_app, repeat_length, Hfound. unfold call. simpl.
  rewrite <- app_assoc.
  replace (repeat address k ++ [address]) with (repeat address (S k)).
  - reflexivity.
  - change [address] with (repeat address 1).
    rewrite <- repeat_app. f_equal. lia.
Qed.

End Runs.

Definition silent : service := fun _ _ => NoResult.

Definition second_try : service :=
  fun n _ =>
    match n with
    | 1%nat => Found (Sample.Int 44) (Sample.Int (-63))
    | _ => NoResult
    end.

Lemma empty_answers_are_retried_without_sleep_witness :
  let address := lit "Halifax, Nova Scotia, Canada" in
  geocode_address silent address 3 (Sample.Int 2) no_effects
  = (Ret (None, None),
     {| calls := [address; address; address]; sleeps := [] |}).
Proof.
  intros address.
  rewrite (empty_answers_are_retried_without_sleep silent address 3
             (Sample.Int 2) no_effects).
  - vm_compute. reflexivity.
  - reflexivity.
Defined.

Lemma first_location_wins_witness :
  let address := lit "Halifax, Nova Scotia" in
  geocode_address second_try address 3 (Sample.Int 2) no_effects
  = (Ret (Some (Sample.Int 44), Some (Sample.Int (-63))),
     {| calls := [address; address]; sleeps := [] |}).
Proof.
  intros address.
  rewrite (first_location_wins second_try address 3 (Sample.Int 2)
             no_effects 1 (Sample.Int 44) (Sample.Int (-63))).
  - reflexivity.
  - simpl. lia.
  - intros [|j] Hj; [reflexivity|lia].
  - reflexivity.
Defined.

End ClientRuns.


(** ** Laws of the cache file *)

Module CacheLaws.
Import Cache CacheFacts SampleFacts.

Section Laws.
Context `{PyFloat}.

(** What [load_cache] stores for a line. *)
Definition loaded (row : line) : coords :=
  (if notna (lat row) then lat row else None,
   if notna (lon row) then lon row else None).

Lemma load_snoc (df : list line) (row : line) :
  load_cache (Some (df ++ [row]))
  = <[address row := loaded row]> (load_cache (Some df)).
Proof. unfold load_cache. by rewrite foldl_snoc. Qed.

Lemma read_back_loaded (row : line) : read_back (loaded row) = loaded row.
Proof.
  unfold read_back, loaded, notna, field_of. simpl.
  destruct (lat row) as [x|], (lon row) as [y|]; simpl;
    try destruct (float_isnan x) eqn:Ex; try destruct (float_isnan y) eqn:Ey;
    simpl; rewrite ?Ex, ?Ey; reflexivity.
Qed.

(** Every pair of a loaded cache is one a line gave: no NaN in it. *)
Lemma load_cache_read_back (file : store) (k : str) (v : coords) :
  load_cache file !! k = Some v -> read_back v = v.
Proof.
  destruct file as [df|];
    [|unfold load_cache; by rewrite lookup_empty].
  revert k v. induction df as [|row df IH] using rev_ind; intros k v.
  - unfold load_cache. cbn [foldl]. by rewrite lookup_empty.
  - rewrite load_snoc. destruct (decide (address row = k)) as [<-|Hne].
    + rewrite lookup_insert_eq. intros [= <-]. apply read_back_loaded.
    + rewrite lookup_insert_ne by exact Hne. apply IH.
Qed.

(** X6: in a file with several lines for an address the last one counts:
    the loaded cache gives, for the address of a line that no later line
    repeats, the pair of that line, an empty or NaN field read as
    [None]. An address on no line is not in the cache, and a missing file
    loads as the empty cache. *)
Theorem load_cache_last_line_wins (before after : list line) (row : line)
    (k : str) :
  (address row ∉ map address after ->
   load_cache (Some (before ++ row :: after)) !! address row
   = Some (if notna (lat row) then lat row else None,
           if notna (lon row) then lon row else None)) /\
  (k ∉ map address before ->
   load_cache (Some before) !! k = None) /\
  load_cache None !! k = None.
Proof.
  split; [|split].
  - induction after as [|r after IH] using rev_ind; intros Hnot.
    + rewrite load_snoc. apply lookup_insert_eq.
    + rewrite map_app in Hnot. simpl in Hnot.
      rewrite elem_of_app, list_elem_of_singleton in Hnot.
      change (before ++ row :: after ++ [r])
        with (before ++ (row :: after) ++ [r]).
      rewrite app_assoc, load_snoc.
      rewrite lookup_insert_ne by (intros E; apply Hnot; right; by rewrite E).
      apply IH. tauto.
  - induction before as [|r before IH] using rev_ind; intros Hnot.
    + apply lookup_empty.
    + rewrite map_app in Hnot. simpl in Hnot.
      rewrite elem_of_app, list_elem_of_singleton in Hnot.
      rewrite load_snoc.
      rewrite lookup_insert_ne by (intros E; apply Hnot; right; by rewrite E).
      apply IH. tauto.
  - apply lookup_empty.
Qed.

(** X7: a loaded cache holds no NaN: each coordinate is [None] or a
    number that is not NaN, so the test [is not None] of the row loop
    finds real numbers only. *)
Theorem load_cache_has_no_nan (file : store) (k : str) (v : coords)
    (x : pyfloat) :
  load_cache file !! k = Some v ->
  v.1 = Some x \/ v.2 = Some x ->
  float_isnan x = false.
Proof.
  intros Hk Hx. pose proof (load_cache_read_back file k v Hk) as Hv.
  unfold read_back in Hv. destruct v as [la lo]. simpl in *.
  injection Hv as Hla Hlo. unfold field_of in *.
  destruct Hx as [->| ->].
  - destruct (float_isnan x); [discriminate|reflexivity].
  - destruct (float_isnan x); [discriminate|reflexivity].
Qed.


End Laws.

Lemma load_cache_last_line_wins_witness :
  let old := {| address := halifax; lat := Some (Sample.Int 1);
                lon := Some (Sample.Int 2) |} in
  let new := {| address := halifax; lat := Some (Sample.Int 44);
                lon := Some Sample.NaN |} in
  let other := {| address := truro; lat := None; lon := None |} in
  load_cache (Some ([old] ++ new :: [other])) !! halifax
  = Some (Some (Sample.Int 44), None) /\
  load_cache (Some [old]) !! truro = None.
Proof.
  intros old new other.
  destruct (load_cache_last_line_wins [old] [other] new truro)
    as (Hlast & Hmiss & _).
  split.
  - apply Hlast. simpl. rewrite list_elem_of_singleton. discriminate.
  - apply Hmiss. simpl. rewrite list_elem_of_singleton. discriminate.
Defined.

Lemma load_cache_has_no_nan_witness :
  let file := Some [{| address := halifax; lat := Some (Sample.Int 44);
                       lon := Some Sample.NaN |}] in
  load_cache file !! halifax = Some (Some (Sample.Int 44), None) /\
  float_isnan (Sample.Int 44) = false.
Proof.
  intros file.
  assert (load_cache file !! halifax = Some (Some (Sample.Int 44), None))
    as Hk by (vm_compute; reflexivity).
  split; [exact Hk|].
  apply (load_cache_has_no_nan file halifax _ _ Hk). left. reflexivity.
Defined.

End CacheLaws.


(** ** The row loop as a whole *)

Module LoopFacts.
Import Geocode Cache Builder BuilderFacts SampleFacts.

Section Loop.
Context `{PyFloat}.

(** What a step does besides resolving the coordinates. *)
Lemma step_of_resolve (a : args) (svc : service) (has_latlon : bool)
    (row : in_row) (s s' : state) :
  step a svc has_latlon row s = Ret s' ->
  exists la lo c w,
    resolve a svc has_latlon row (cache s) (net s) = (Ret ((la, lo), c), w) /\
    cache s' = c /\ net s' = w /\
    lats s' = lats s ++ [la] /\ lons s' = lons s ++ [lo] /\
    failed s' =
      (if bool_decide (la = None) || bool_decide (lo = None)
       then failed s ++ [{| f_School := School row; f_Address := Address row;
                            f_Normalized := full_addr row |}]
       else failed s) /\
    disk s' = (if negb (no_cache a) && (size c mod 25 =? 0)%nat
               then save_cache (disk s) c else disk s).
Proof.
  unfold step.
  destruct (resolve a svc has_latlon row (cache s) (net s))
    as [[[[la lo] c]|e] w]; [|discriminate].
  intros [= <-]. exists la, lo, c, w. repeat split.
Qed.

(** What [resolve] leaves in the cache. *)
Lemma resolve_cache (a : args) (svc : service) (has_latlon : bool)
    (row : in_row) (c c' : gmap str coords) (w w' : effects) (v : coords) :
  resolve a svc has_latlon row c w = (Ret (v, c'), w') ->
  (no_cache a = true -> c' = c) /\
  (no_cache a = false -> c' !! full_addr row = Some v).
Proof.
  unfold resolve. generalize (full_addr row). intros addr.
  destruct (prev_latlon has_latlon row) as [[x|] [y|]];
    destruct (no_cache a); cbn [negb andb];
    try (intros [= <- <- <-]; split; intros; try done;
         by rewrite lookup_insert_eq);
    try (destruct (geocode_default svc addr w) as [[v1|e1] w1];
         [|discriminate]; intros [= <- <- <-]; split; intros; try done;
         by rewrite lookup_insert_eq);
    destruct (c !! addr) as [entry|] eqn:Hc; simpl;
    repeat (match goal with
            | |- context [if ?b then _ else _] => destruct b
            end);
    try (intros [= <- <- <-]; split; intros; done);
    try (destruct (geocode_default svc addr w) as [[v1|e1] w1];
         [|discriminate]; intros [= <- <- <-]; split; intros; try done;
         by rewrite lookup_insert_eq).
Qed.

Lemma cache_step_off (a : args) (svc : service) (has_latlon : bool)
    (row : in_row) (s s' : state) :
  step a svc has_latlon row s = Ret s' ->
  exists la,
    lats s' = lats s ++ [la] /\
    (no_cache a = true -> cache s' = cache s /\ disk s' = disk s).
Proof.
  intros Hstep.
  destruct (step_of_resolve _ _ _ _ _ _ Hstep)
    as (la & lo & c & w & Hres & Hc & Hw & Hla & Hlo & Hf & Hd).
  destruct (resolve_cache _ _ _ _ _ _ _ _ _ Hres) as [Hoff Hon].
  exists la. split; [exact Hla|]. intros Ha. rewrite Hd, Ha, Hc.
  split; [by apply Hoff|reflexivity].
Qed.

(** X9: after a row the cache and the result columns agree: with the
    cache in use, the entry under the normalized address of the row is the
    pair of coordinates appended for the row, whichever way they were
    found; with [--no-cache] neither the cache nor the cache file is
    touched. *)
Theorem cache_agrees_with_row (a : args) (svc : service) (has_latlon : bool)
    (row : in_row) (s s' : state) :
  step a svc has_latlon row s = Ret s' ->
  exists la lo,
    lats s' = lats s ++ [la] /\ lons s' = lons s ++ [lo] /\
    (no_cache a = false -> cache s' !! full_addr row = Some (la, lo)) /\
    (no_cache a = true -> cache s' = cache s /\ disk s' = disk s).
Proof.
  intros Hstep.
  destruct (step_of_resolve _ _ _ _ _ _ Hstep)
    as (la & lo & c & w & Hres & Hc & Hw & Hla & Hlo & Hf & Hd).
  destruct (resolve_cache _ _ _ _ _ _ _ _ _ Hres) as [Hoff Hon].
  exists la, lo. rewrite Hc, Hd.
  split; [exact Hla|]. split; [exact Hlo|]. split; [exact Hon|].
  intros Ha. rewrite Ha. split; [by apply Hoff|reflexivity].
Qed.

(** A row without both coordinates. *)
Definition missing (p : option pyfloat * option pyfloat) : bool :=
  bool_decide (p.1 = None) || bool_decide (p.2 = None).

(** The invariant of the loop: as many latitudes as longitudes, and one
    failure for each pair that lacks a coordinate. *)
Definition consistent (s : state) : Prop :=
  length (lats s) = length (lons s) /\
  length (failed s) = length (filter missing (zip (lats s) (lons s))).

Lemma zip_snoc {A B} (l : list A) (k : list B) (x : A) (y : B) :
  length l = length k -> zip (l ++ [x]) (k ++ [y]) = zip l k ++ [(x, y)].
Proof.
  revert k. induction l as [|a l IH]; intros [|b k] Hlen; simpl in *;
    try lia; [reflexivity|]. f_equal. apply IH. lia.
Qed.

Lemma step_consistent (a : args) (svc : service) (has_latlon : bool)
    (row : in_row) (s s' : state) :
  step a svc has_latlon row s = Ret s' -> consistent s -> consistent s'.
Proof.
  intros Hstep [Hlen Hfail].
  destruct (step_of_resolve _ _ _ _ _ _ Hstep)
    as (la & lo & c & w & _ & _ & _ & Hla & Hlo & Hf & _).
  unfold consistent. rewrite Hla, Hlo, Hf, !length_app. simpl.
  split; [lia|]. rewrite zip_snoc by exact Hlen.
  change (bool_decide (la = None) || bool_decide (lo = None))
    with (missing (la, lo)).
  rewrite filter_app, filter_cons, filter_nil, length_app, <- Hfail.
  destruct (missing (la, lo)); simpl; rewrite ?length_app; simpl; lia.
Qed.

Lemma rows_loop_invariant (a : args) (svc : service) (has_latlon : bool)
    (rows : list in_row) (s s' : state) :
  rows_loop a svc has_latlon rows s = Ret s' ->
  (consistent s -> consistent s') /\
  length (lats s') = (length (lats s) + length rows)%nat /\
  (no_cache a = true -> cache s' = cache s /\ disk s' = disk s).
Proof.
  revert s. induction rows as [|row rows IH]; intros s.
  - simpl. intros [= <-]. cbn [lats cache disk length].
    split; [intros Hs; exact Hs|]. split; [lia|].
    intros ->. split; reflexivity.
  - simpl. destruct (step a svc has_latlon row s) as [s1|e] eqn:Hstep;
      [|discriminate].
    intros Hloop. destruct (IH _ Hloop) as (Hcons & Hlen & Hoff).
    destruct (cache_step_off a svc has_latlon row s s1 Hstep)
      as (la & Hla & Hnc).
    split; [|split].
    + intros Hs. apply Hcons. eapply step_consistent; eauto.
    + rewrite Hlen, Hla, length_app. simpl. lia.
    + intros Ha. destruct (Hoff Ha) as [-> ->]. by apply Hnc.
Qed.

(** X10: a run of the loop that comes to its end has given every row a
    latitude and a longitude, [None] included, and has listed as failed
    exactly as many rows as lack a coordinate; with [--no-cache] the cache
    stays empty and the cache file is as it was found. *)
Theorem run_is_consistent (a : args) (svc : service) (has_latlon : bool)
    (rows : list in_row) (file : store) (s' : state) :
  rows_loop a svc has_latlon rows (initial a file) = Ret s' ->
  length (lats s') = length rows /\
  length (lons s') = length rows /\
  length (failed s')
  = length (filter (fun p => bool_decide (p.1 = None)
                             || bool_decide (p.2 = None))
              (zip (lats s') (lons s'))) /\
  (no_cache a = true -> cache s' = ∅ /\ disk s' = file).
Proof.
  intros Hrun.
  destruct (rows_loop_invariant _ _ _ _ _ _ Hrun) as (Hcons & Hlen & Hoff).
  destruct Hcons as [Hll Hfail]; [split; reflexivity|].
  change (length (lats (initial a file))) with 0%nat in Hlen.
  split; [exact Hlen|]. split; [by rewrite <- Hll|].
  split; [exact Hfail|].
  intros Ha. destruct (Hoff Ha) as [-> ->]. unfold initial.
  cbn [cache disk]. by rewrite Ha.
Qed.

(** X11: a failure on record is not tried again unless asked for: with
    the cache in use and without [--regeocode-failed], a row without
    coordinates of its own whose address has an entry with a [None] in
    the cache gets that entry, is listed as failed, and nothing is sent
    to the service. *)
Theorem recorded_failure_is_kept (a : args) (svc : service)
    (has_latlon : bool) (row : in_row) (s : state)
    (la lo : option pyfloat) :
  no_cache a = false -> regeocode_failed a = false ->
  prev_latlon has_latlon row = (None, None) ->
  cache s !! full_addr row = Some (la, lo) ->
  la = None \/ lo = None ->
  exists s',
    step a svc has_latlon row s = Ret s' /\
    net s' = net s /\ cache s' = cache s /\
    lats s' = lats s ++ [la] /\ lons s' = lons s ++ [lo] /\
    failed s' = failed s ++ [{| f_School := School row;
                                f_Address := Address row;
                                f_Normalized := full_addr row |}].
Proof.
  intros Ha Hr Hprev Hc Hv. unfold step, resolve.
  revert Hc. generalize (full_addr row). intros addr Hc.
  rewrite Hprev, Hc, Ha, Hr.
  rewrite bool_decide_eq_true_2 by eauto.
  cbn [default from_option id negb andb].
  assert (valid (la, lo) = false) as Hvalid.
  { unfold valid. cbn [fst snd].
    destruct Hv as [->| ->]; [reflexivity|]. by rewrite andb_false_r. }
  rewrite Hvalid. cbn [negb andb].
  eexists. split; [reflexivity|]. cbn [net cache lats lons failed].
  repeat split.
  replace (bool_decide (la = None) || bool_decide (lo = None)) with true;
    [reflexivity|].
  destruct Hv as [->| ->]; [reflexivity|]. by rewrite orb_true_r.
Qed.

Lemma step_trusted (a : args) (svc : service) (row : in_row) (s : state)
    (x y : pyfloat) :
  py_float (lat_cell row) = Some x -> py_float (lon_cell row) = Some y ->
  exists s',
    step a svc true row s = Ret s' /\
    net s' = net s /\ failed s' = failed s /\
    lats s' = lats s ++ [Some x] /\ lons s' = lons s ++ [Some y].
Proof.
  intros Hx Hy. unfold step, resolve.
  rewrite (prev_latlon_valid _ _ _ Hx Hy).
  generalize (full_addr row). intros addr.
  eexists. split; [reflexivity|]. cbn [net lats lons failed].
  rewrite !bool_decide_eq_false_2 by discriminate. repeat split.
Qed.

(** X12: a table that brings its own coordinates is never geocoded:
    when the [lat] and [lon] cells of every row convert to numbers, the
    loop runs to its end without a call to the service, lists no failure
    and returns the numbers of the rows, in their order. *)
Theorem rows_with_coordinates_never_geocode (a : args) (svc : service)
    (rows : list in_row) (s : state) :
  Forall (fun row => is_Some (py_float (lat_cell row)) /\
                     is_Some (py_float (lon_cell row))) rows ->
  exists s',
    rows_loop a svc true rows s = Ret s' /\
    net s' = net s /\ failed s' = failed s /\
    lats s' = lats s ++ map (fun row => py_float (lat_cell row)) rows /\
    lons s' = lons s ++ map (fun row => py_float (lon_cell row)) rows.
Proof.
  intros Hrows. revert s. induction Hrows as [|row rows [[x Hx] [y Hy]] _ IH];
    intros s.
  - eexists. split; [reflexivity|]. cbn [net failed lats lons map].
    by rewrite !app_nil_r.
  - destruct (step_trusted a svc row s x y Hx Hy)
      as (s1 & Hstep & Hnet & Hfail & Hla & Hlo).
    destruct (IH s1) as (s' & Hloop & Hnet' & Hfail' & Hla' & Hlo').
    exists s'. cbn [rows_loop map]. rewrite Hstep. split; [exact Hloop|].
    rewrite Hnet', Hfail', Hla', Hlo', Hnet, Hfail, Hla, Hlo, Hx, Hy.
    by rewrite <- !app_assoc.
Qed.

(** X13: a service that is down costs a row its coordinates, not the
    run: for a row without coordinates and without a cache entry, when
    every call raises an exception, the row gets the pair of [None], is
    listed as failed under its normalized address, the failure is written
    to the cache when the cache is in use, and each variant of the
    address has been tried three times. *)
Theorem service_down_is_a_recorded_failure (a : args) (svc : service)
    (has_latlon : bool) (row : in_row) (s : state) :
  (forall n q, exists e, GeocodeFacts.caught e /\ svc n q = Raise e) ->
  prev_latlon has_latlon row = (None, None) ->
  cache s !! full_addr row = None ->
  exists s',
    step a svc has_latlon row s = Ret s' /\
    lats s' = lats s ++ [None] /\ lons s' = lons s ++ [None] /\
    failed s' = failed s ++ [{| f_School := School row;
                                f_Address := Address row;
                                f_Normalized := full_addr row |}] /\
    (no_cache a = false ->
     cache s' !! full_addr row = Some (None, None)) /\
    calls (net s')
    = calls (net s)
      ++ flat_map (fun v => [v; v; v]) (variants (full_addr row)).
Proof.
  intros Hdown Hprev Hc. unfold step, resolve.
  revert Hc. generalize (full_addr row). intros addr Hc.
  rewrite Hprev, Hc.
  rewrite bool_decide_eq_false_2 by (intros [? ?]; discriminate).
  rewrite !andb_false_r. cbn [andb].
  unfold geocode_default, geocode_address.
  change (Z.to_nat 3) with 3%nat.
  rewrite (GeocodeFacts.over_variants_all_raise svc _ 3 _ _ Hdown).
  eexists. split; [reflexivity|]. cbn [net cache lats lons failed calls].
  split; [reflexivity|]. split; [reflexivity|]. split; [reflexivity|].
  split; [|reflexivity].
  intros ->. cbn [negb]. apply lookup_insert_eq.
Qed.

End Loop.

Definition keep : args := {| no_cache := false; regeocode_failed := false |}.

Definition stale : state :=
  {| cache := {[ lit "9 Oak Rd, Truro, Nova Scotia, Canada" := (None, None) ]};
     disk := None; net := no_effects; lats := []; lons := []; failed := [] |}.

(** The state after a run over two rows with a service that is down. *)
Definition after_two_rows : state :=
  Eval vm_compute in
    match rows_loop keep unreachable true [elm; oak] (initial keep None) with
    | Ret s => s
    | Exc _ => initial keep None
    end.

Lemma two_rows_run :
  rows_loop keep unreachable true [elm; oak] (initial keep None)
  = Ret after_two_rows.
Proof. vm_cast_no_check (eq_refl (Ret after_two_rows)). Qed.

(** The state after the first of the two rows. *)
Definition after_first_row : state :=
  Eval vm_compute in
    match step keep unreachable true elm (initial keep None) with
    | Ret s => s
    | Exc _ => initial keep None
    end.

Lemma first_row_step :
  step keep unreachable true elm (initial keep None) = Ret after_first_row.
Proof. vm_cast_no_check (eq_refl (Ret after_first_row)). Qed.

Lemma cache_agrees_with_row_witness :
  step keep unreachable true elm (initial keep None) = Ret after_first_row /\
  exists la lo,
    lats after_first_row = lats (initial keep None) ++ [la] /\
    lons after_first_row = lons (initial keep None) ++ [lo] /\
    cache after_first_row !! full_addr elm = Some (la, lo).
Proof.
  destruct (cache_agrees_with_row keep unreachable true elm
              (initial keep None) after_first_row first_row_step)
    as (la & lo & Hla & Hlo & Hon & _).
  split; [exact first_row_step|].
  exists la, lo. split; [exact Hla|]. split; [exact Hlo|].
  exact (Hon eq_refl).
Defined.

Lemma run_is_consistent_witness :
  rows_loop keep unreachable true [elm; oak] (initial keep None)
  = Ret after_two_rows /\
  length (lats after_two_rows) = 2%nat /\
  length (failed after_two_rows) = 1%nat.
Proof.
  destruct (run_is_consistent keep unreachable true [elm; oak] None
              after_two_rows two_rows_run) as (Hla & _ & Hfail & _).
  split; [exact two_rows_run|]. split; [exact Hla|].
  rewrite Hfail. vm_compute. reflexivity.
Defined.

Lemma recorded_failure_is_kept_witness :
  exists s',
    step keep unreachable true oak stale = Ret s' /\
    net s' = no_effects /\ lats s' = [None].
Proof.
  assert (cache stale !! full_addr oak = Some (None, None)) as Hc
    by (vm_compute; reflexivity).
  assert (prev_latlon true oak = (None, None)) as Hprev by reflexivity.
  destruct (recorded_failure_is_kept keep unreachable true oak stale
              None None eq_refl eq_refl Hprev Hc (or_introl eq_refl))
    as (s' & Hstep & Hnet & _ & Hla & _).
  exists s'. split; [exact Hstep|]. split; [exact Hnet|exact Hla].
Defined.

Lemma rows_with_coordinates_never_geocode_witness :
  exists s',
    rows_loop keep unreachable true [elm; elm] (initial keep None) = Ret s' /\
    net s' = no_effects /\
    lats s' = [Some (Sample.Int 44); Some (Sample.Int 44)].
Proof.
  destruct (rows_with_coordinates_never_geocode keep unreachable [elm; elm]
              (initial keep None))
    as (s' & Hloop & Hnet & _ & Hla & _).
  - repeat constructor; eexists; reflexivity.
  - exists s'. split; [exact Hloop|]. split; [exact Hnet|exact Hla].
Defined.

Lemma service_down_is_a_recorded_failure_witness :
  exists s',
    step keep unreachable true oak (initial keep None) = Ret s' /\
    lats s' = [None] /\
    cache s' !! full_addr oak = Some (None, None).
Proof.
  destruct (service_down_is_a_recorded_failure keep unreachable true oak
              (initial keep None))
    as (s' & Hstep & Hla & _ & _ & Hcache & _).
  - intros n q. exists GeocoderUnavailable. split; [discriminate|reflexivity].
  - reflexivity.
  - apply lookup_empty.
  - exists s'. split; [exact Hstep|]. split; [exact Hla|].
    by apply Hcache.
Defined.

End LoopFacts.


(** ** Status and group of a row ([derive_status], [pick_group_column],
    v9 lines 138-157) *)

Module Derive.
Import Status.

Section Derive.
Context `{PyFloat} `{PyText}.

Definition STATUS_COL : str := lit "Status".

(** [row.get(key, default)] with the empty string as default, on a row
    of a table. *)
Definition get (row : gmap str pyval) (key : str) : pyval :=
  default (PyStr []) (row !! key).

(** Membership in the set of the words for yes. *)
Definition yes (v : str) : bool :=
  bool_decide (v ∈ [lit "1"; lit "true"; lit "yes"; lit "y"]).

(** Lines 138-146. *)
Definition derive_status (row : gmap str pyval) : str :=
  let raw := py_lower (py_strip (py_str (get row STATUS_COL))) in
  if negb (Str.eqb raw []) then normalize_status_value (PyStr raw)
  else
    let recent :=
      yes (py_lower (py_strip (py_str (get row (lit "Recent Relationship"))))) in
    let active :=
      yes (py_lower (py_strip (py_str (get row (lit "Current Work"))))) in
    if active then lit "current"
    else if recent then lit "recent"
    else lit "none".

Definition GROUP_CANDIDATES : list str :=
  [lit "Group"; lit "Board"; lit "System"; lit "District"].

(** A table: its columns by name, all of [height] cells. *)
Record frame : Type := {
  columns : gmap str (list pyval);
  height : nat
}.

(** The [for] loop of lines 150-152: the first candidate that is a
    column. *)
Fixpoint first_present (candidates : list str) (df : frame) : option str :=
  match candidates with
  | [] => None
  | c :: rest =>
      if bool_decide (is_Some (columns df !! c)) then Some c
      else first_present rest df
  end.

(** Lines 149-157: the name of the group column and the table after the
    call. *)
Definition pick_group_column (df : frame) : str * frame :=
  match first_present GROUP_CANDIDATES df with
  | Some c => (c, df)
  | None =>
      match columns df !! lit "District" with
      | Some district =>
          (lit "Group",
           {| columns := <[lit "Group" := district]> (columns df);
              height := height df |})
      | None =>
          (lit "Group",
           {| columns := <[lit "Group" := replicate (height df) (PyStr [])]>
                           (columns df);
              height := height df |})
      end
  end.

End Derive.
End Derive.




(** ** Status and group of a row *)

Module DeriveFacts.
Import Str Status Js Derive StatusFacts TrimFacts SampleFacts.

Section Rows.
Context `{PyFloat} `{PyText} `{JsNumber} `{JsText}.

Lemma classify_fixed (v : str) : classify (classify v) = classify v.
Proof.
  pose proof (classify_canonical v) as Hv.
  rewrite !elem_of_cons, elem_of_nil in Hv.
  destruct Hv as [->|[->|[->|[]]]]; reflexivity.
Qed.

Lemma classify_lower_strip (v : str) :
  v ∈ [lit "none"; lit "recent"; lit "current"] ->
  py_lower (py_strip v) = v /\ js_toLowerCase (js_trim v) = v.
Proof.
  intros Hv. rewrite !elem_of_cons, elem_of_nil in Hv.
  destruct Hv as [->|[->|[->|[]]]]; split;
    first [by rewrite py_ascii|by rewrite js_ascii].
Qed.

(** X14: normalizing a status twice is normalizing it once, in the
    pipeline and in the page: a status that went through
    [normalize_status_value] or [normalizeStatus] is left as it is by
    both. *)
Theorem status_normalization_is_idempotent (val : pyval) (s : jsval) :
  normalize_status_value (PyStr (normalize_status_value val))
  = normalize_status_value val /\
  normalizeStatus (JStr (normalizeStatus s)) = normalizeStatus s /\
  normalizeStatus (JStr (normalize_status_value val))
  = normalize_status_value val.
Proof.
  rewrite !normalizeStatus_classify, !to_string_or_str.
  rewrite !normalize_status_value_classify.
  change (py_str (PyStr ?x)) with x.
  destruct (classify_lower_strip _ (classify_canonical
              (py_lower (py_strip (py_str val))))) as [Hpy Hpyjs].
  destruct (classify_lower_strip _ (classify_canonical
              (js_toLowerCase (js_trim (to_string (or s (JStr []))))))) as [_ Hjs].
  cbn [py_str]. rewrite Hpy, Hjs, Hpyjs, !classify_fixed. done.
Qed.

Lemma derive_status_explicit (row : gmap str pyval) :
  py_lower (py_strip (py_str (get row STATUS_COL))) <> [] ->
  derive_status row = normalize_status_value (get row STATUS_COL).
Proof.
  intros Hraw. unfold derive_status.
  replace (Str.eqb (py_lower (py_strip (py_str (get row STATUS_COL)))) [])
    with false by (symmetry; by apply bool_decide_eq_false).
  cbn [negb]. rewrite !normalize_status_value_classify. cbn [py_str].
  by rewrite py_lower_strip_idem.
Qed.

(** X15: the result of [derive_status] is one of [none], [recent],
    [current]; and a Status cell that is not blank, which is to say that
    [strip] and [lower] leave something of its text, decides alone: the
    result is its normalized value, whatever the columns Recent
    Relationship and Current Work hold. *)
Theorem derive_status_prefers_status (row : gmap str pyval) :
  derive_status row ∈ [lit "none"; lit "recent"; lit "current"] /\
  (py_lower (py_strip (py_str (get row STATUS_COL))) <> [] ->
   derive_status row = normalize_status_value (get row STATUS_COL)).
Proof.
  split; [|apply derive_status_explicit].
  destruct (decide (py_lower (py_strip (py_str (get row STATUS_COL))) = []))
    as [Hblank|Hraw].
  - unfold derive_status. rewrite Hblank. cbn [negb Str.eqb].
    replace (Str.eqb [] []) with true by reflexivity. cbn [negb].
    repeat case_match; rewrite !elem_of_cons; auto.
  - rewrite derive_status_explicit by exact Hraw.
    rewrite normalize_status_value_classify. apply classify_canonical.
Qed.

(** X16: a number in the Status cell, such as the NaN of an empty cell
    of a table that has the column, gives [none] even when Current Work
    says yes; the columns Recent Relationship and Current Work count only
    for a row without a Status or with a blank one, and then Current Work
    goes first; each is read through [strip] and [lower]. *)
Theorem derive_status_legacy_columns (row : gmap str pyval) (x : pyfloat) :
  (row !! STATUS_COL = Some (PyNum x) -> derive_status row = lit "none") /\
  (py_lower (py_strip (py_str (get row STATUS_COL))) = [] ->
   derive_status row =
     if yes (py_lower (py_strip (py_str (get row (lit "Current Work")))))
     then lit "current"
     else if yes (py_lower (py_strip (py_str (get row (lit "Recent Relationship")))))
     then lit "recent"
     else lit "none") /\
  (row !! STATUS_COL = None ->
   py_lower (py_strip (py_str (get row STATUS_COL))) = []).
Proof.
  split; [|split].
  - intros Hx.
    assert (get row STATUS_COL = PyNum x) as Hget
      by (unfold get; by rewrite Hx).
    destruct (py_number_is_none (float_str x) (float_str_leads x))
      as (c & rest & E & Hc & _).
    rewrite derive_status_explicit.
    + rewrite Hget, normalize_status_value_classify. cbn [py_str].
      rewrite E. by apply classify_other_lead.
    + rewrite Hget. cbn [py_str]. rewrite E. discriminate.
  - intros Hblank. unfold derive_status. rewrite Hblank.
    replace (Str.eqb [] []) with true by reflexivity. reflexivity.
  - intros Hnone. unfold get. rewrite Hnone. cbn [default py_str].
    by rewrite py_ascii.
Qed.

(** The first candidate found is a column, and no earlier one is. *)
Lemma first_present_spec (candidates : list str) (df : frame) :
  match first_present candidates df with
  | Some c =>
      exists before after,
        candidates = before ++ c :: after /\
        is_Some (columns df !! c) /\
        Forall (fun b => columns df !! b = None) before
  | None => Forall (fun b => columns df !! b = None) candidates
  end.
Proof.
  induction candidates as [|c rest IH]; simpl; [constructor|].
  destruct (bool_decide (is_Some (columns df !! c))) eqn:Hc.
  - apply bool_decide_eq_true in Hc. exists [], rest. repeat split; auto.
  - apply bool_decide_eq_false in Hc.
    assert (columns df !! c = None) as Hnone
      by (destruct (columns df !! c); [destruct Hc; eauto|reflexivity]).
    destruct (first_present rest df) as [c'|].
    + destruct IH as (before & after & -> & Hin & Hbefore).
      exists (c :: before), after. repeat split; auto.
    + by constructor.
Qed.

(** X17: [pick_group_column] returns a column of the table it leaves:
    the first of Group, Board, System, District that the table has, the
    table untouched; or, when it has none of them, a new column Group of
    empty strings, the other columns untouched. The branch that copies
    District into Group is never taken. *)
Theorem pick_group_column_spec (df : frame) :
  is_Some (columns (pick_group_column df).2 !! (pick_group_column df).1) /\
  ((exists before after,
      GROUP_CANDIDATES = before ++ (pick_group_column df).1 :: after /\
      is_Some (columns df !! (pick_group_column df).1) /\
      Forall (fun b => columns df !! b = None) before /\
      (pick_group_column df).2 = df) \/
   (Forall (fun b => columns df !! b = None) GROUP_CANDIDATES /\
    (pick_group_column df).1 = lit "Group" /\
    columns (pick_group_column df).2
    = <[lit "Group" := replicate (height df) (PyStr [])]> (columns df))).
Proof.
  unfold pick_group_column.
  pose proof (first_present_spec GROUP_CANDIDATES df) as Hfirst.
  destruct (first_present GROUP_CANDIDATES df) as [c|].
  - destruct Hfirst as (before & after & Hc & Hin & Hbefore).
    cbn [fst snd]. split; [exact Hin|]. left. exists before, after. auto.
  - assert (columns df !! lit "District" = None) as Hd.
    { rewrite Forall_forall in Hfirst. apply Hfirst.
      unfold GROUP_CANDIDATES. rewrite !elem_of_cons. auto. }
    rewrite Hd. cbn [fst snd columns]. split.
    + rewrite lookup_insert_eq. eauto.
    + right. auto.
Qed.

End Rows.

Lemma derive_status_prefers_status_witness :
  let row : gmap str pyval :=
    {[ lit "Status" := PyStr (lit " Recent ");
       lit "Current Work" := PyStr (lit "yes") ]} in
  py_lower (py_strip (py_str (get row STATUS_COL))) <> [] /\
  derive_status row = lit "recent".
Proof.
  intros row.
  assert (py_lower (py_strip (py_str (get row STATUS_COL))) <> []) as Hraw
    by (vm_compute; discriminate).
  split; [exact Hraw|].
  rewrite (proj2 (derive_status_prefers_status row) Hraw).
  vm_compute. reflexivity.
Defined.

Lemma derive_status_legacy_columns_witness :
  let empty_cell : gmap str pyval :=
    {[ lit "Status" := PyNum Sample.NaN;
       lit "Current Work" := PyStr (lit "yes") ]} in
  let legacy : gmap str pyval :=
    {[ lit "Recent Relationship" := PyStr (lit "Y");
       lit "Current Work" := PyStr (lit "no") ]} in
  derive_status empty_cell = lit "none" /\
  derive_status legacy = lit "recent".
Proof.
  intros empty_cell legacy. split.
  - apply (proj1 (derive_status_legacy_columns empty_cell Sample.NaN)).
    vm_compute. reflexivity.
  - destruct (derive_status_legacy_columns legacy Sample.NaN)
      as (_ & Hlegacy & Habsent).
    rewrite Hlegacy.
    + vm_compute. reflexivity.
    + apply Habsent. vm_compute. reflexivity.
Defined.

End DeriveFacts.


(** ** The other operations of the page (v9 lines 377-415, 520-540,
    585-610, 632-637) *)

Module Editor.
Import Js.

Section Editor.
Context `{JsNumber} `{JsText}.

(** [Number(x.toFixed(6))] *)
Variable toFixed6 : jsnum -> jsnum.

(** Lines 402-412: the markers [applyFilters] leaves on the map, in the
    order of [markers], and the first of them, which it returns. *)
Definition applyFilters (ui : controls) (markers : list rec)
    : list rec * option rec :=
  let shown := filter (fun r => visiblePredicate ui r = true) markers in
  (shown, head shown).

(** The three globals the edits work on. The markers and the document
    are left out: no edit reads them to decide what it does to these. *)
Record globals : Type := {
  g_DATA : list rec;
  g_UNDO : list action;
  g_moveIndex : option nat
}.

Definition of_page (p : page) : globals :=
  {| g_DATA := DATA p; g_UNDO := UNDO_STACK p; g_moveIndex := moveIndex p |}.

Definition to_page (g : globals) : page :=
  {| DATA := g_DATA g; UNDO_STACK := g_UNDO g;
     markers := rebuildMarkers (g_DATA g);
     moveIndex := g_moveIndex g; toast := None |}.

(** Lines 632-637: [init] normalizes the status of every record. *)
Definition init (data : list rec) : globals :=
  {| g_DATA :=
       map (fun r => {| School := School r; Address := Address r;
                        Group := Group r; lat := lat r; lon := lon r;
                        Status := JStr (normalizeStatus (Status r)) |}) data;
     g_UNDO := []; g_moveIndex := None |}.

(** Lines 377-379: [DATA[idx].Status = normalizeStatus(status)], nothing
    for an index without a record. *)
Definition _setStatus (i : nat) (status : jsval) (g : globals) : globals :=
  match g_DATA g !! i with
  | None => g
  | Some r =>
      {| g_DATA :=
           <[i := {| School := School r; Address := Address r;
                     Group := Group r; lat := lat r; lon := lon r;
                     Status := JStr (normalizeStatus status) |}]> (g_DATA g);
         g_UNDO := g_UNDO g; g_moveIndex := g_moveIndex g |}
  end.

(** Lines 396-399. *)
Definition _move (i : nat) (g : globals) : globals :=
  {| g_DATA := g_DATA g; g_UNDO := g_UNDO g; g_moveIndex := Some i |}.

(** Lines 520-540, a click on the map at [(lat, lng)]: a pending move
    is taken off and, when its index has a record, carried out; without
    a pending move the three globals stay. *)
Definition mapClickHandler (lat_ lng : jsnum) (g : globals) : globals :=
  match g_moveIndex g with
  | Some i =>
      match g_DATA g !! i with
      | Some r =>
          {| g_DATA :=
               <[i := {| School := School r; Address := Address r;
                         Group := Group r;
                         lat := JNum (toFixed6 lat_);
                         lon := JNum (toFixed6 lng);
                         Status := Status r |}]> (g_DATA g);
             g_UNDO := g_UNDO g; g_moveIndex := None |}
      | None =>
          {| g_DATA := g_DATA g; g_UNDO := g_UNDO g; g_moveIndex := None |}
      end
  | None => g
  end.

(** What the Save button of the form reads: the three text fields, the
    two numbers shown and the selected status. *)
Record form : Type := {
  f_school : str;
  f_address : str;
  f_group : str;
  f_lat : jsnum;
  f_lon : jsnum;
  f_status : str
}.

(** Lines 586-593. *)
Definition new_record (f : form) : rec :=
  {| School := or (JStr (f_school f)) (JStr (lit "New Location"));
     Address := or (JStr (f_address f)) (JStr []);
     Group := or (JStr (f_group f)) (JStr []);
     lat := JNum (f_lat f);
     lon := JNum (f_lon f);
     Status := JStr (normalizeStatus (or (JStr (f_status f))
                                         (JStr (lit "none")))) |}.

(** Line 595: [DATA.push(rec)]. *)
Definition save (f : form) (g : globals) : globals :=
  {| g_DATA := g_DATA g ++ [new_record f];
     g_UNDO := g_UNDO g; g_moveIndex := g_moveIndex g |}.

(** What the user can do to the store. *)
Inductive edit : Type :=
| SetStatus (i : nat) (status : jsval)
| Delete (i : nat)
| UndoDelete
| MovePin (i : nat)
| Click (lat_ lng : jsnum)
| Save (f : form).

Definition apply (e : edit) (g : globals) : globals :=
  match e with
  | SetStatus i status => _setStatus i status g
  | Delete i => of_page (_delete i (to_page g))
  | UndoDelete => of_page (undoDelete (to_page g))
  | MovePin i => _move i g
  | Click lat_ lng => mapClickHandler lat_ lng g
  | Save f => save f g
  end.

(** The edits of a session, in the order they were made. *)
Definition session (edits : list edit) (g : globals) : globals :=
  foldl (fun g e => apply e g) g edits.

End Editor.
End Editor.


(** ** The edits of the page *)

Module EditorFacts.
Import Str Js Editor StatusFacts StoreFacts SampleFacts SampleData.

Section Edits.
Context `{JsNumber} `{JsText}.
Variable toFixed6 : jsnum -> jsnum.

(** A record that gets a circle on the map. *)
Definition placed (r : rec) : Prop := isFinite (lat r) && isFinite (lon r) = true.

Lemma rebuildMarkers_length (data : list rec) :
  (length (rebuildMarkers data) <= length data)%nat.
Proof. apply length_filter. Qed.

(** X18: the list of markers is the list of records exactly when every
    record has finite coordinates, and then the marker at an index is
    the marker of the record at that index; as soon as one record lacks
    them the list of markers is shorter than the list of records. *)
Theorem markers_align_iff (data : list rec) :
  (rebuildMarkers data = data <-> Forall placed data) /\
  (~ Forall placed data ->
   (length (rebuildMarkers data) < length data)%nat).
Proof.
  assert (forall l : list rec,
            Forall placed l \/
            (length (rebuildMarkers l) < length l)%nat) as Hcases.
  { induction l as [|r l IH]; [left; constructor|].
    unfold rebuildMarkers in *. rewrite filter_cons.
    destruct (decide (isFinite (lat r) && isFinite (lon r) = true))
      as [Hr|Hr].
    - destruct IH as [IH|IH]; [left; by constructor|right; simpl; lia].
    - right. pose proof (rebuildMarkers_length l) as Hlen.
      unfold rebuildMarkers in Hlen. simpl. lia. }
  split; [split|].
  - intros Heq. destruct (Hcases data) as [Hall|Hlt]; [exact Hall|].
    rewrite Heq in Hlt. lia.
  - intros Hall. unfold rebuildMarkers.
    induction Hall as [|r l Hr _ IH]; [reflexivity|].
    rewrite filter_cons, decide_True by exact Hr. by rewrite IH.
  - intros Hnot. destruct (Hcases data) as [Hall|Hlt]; [by destruct Hnot|].
    exact Hlt.
Qed.

(** [_delete] and [undoDelete] read and write the three globals only. *)
Lemma delete_of_page (i : nat) (p : page) :
  of_page (_delete i p) = apply toFixed6 (Delete i) (of_page p).
Proof.
  unfold apply, of_page, to_page, _delete. simpl.
  by destruct (DATA p !! i).
Qed.

Lemma undo_of_page (p : page) :
  of_page (undoDelete p) = apply toFixed6 UndoDelete (of_page p).
Proof.
  unfold apply, of_page, to_page, undoDelete. simpl.
  destruct (last (UNDO_STACK p)); [|reflexivity].
  by destruct (Str.eqb _ _).
Qed.

(** Deleting a record and undoing at once, on the globals. *)
Lemma delete_undo (i : nat) (g : globals) :
  (i < length (g_DATA g))%nat ->
  apply toFixed6 UndoDelete (apply toFixed6 (Delete i) g) = g.
Proof.
  intros Hi. destruct (lookup_lt_is_Some_2 _ _ Hi) as [r Hr].
  unfold apply, of_page, to_page, _delete. cbn [DATA UNDO_STACK moveIndex].
  rewrite Hr. cbn [DATA UNDO_STACK moveIndex g_DATA g_UNDO g_moveIndex].
  unfold undoDelete. cbn [DATA UNDO_STACK moveIndex].
  rewrite last_snoc. cbn [type idx a_rec].
  replace (Str.eqb (lit "delete") (lit "delete")) with true
    by (symmetry; by apply bool_decide_eq_true).
  cbn [DATA UNDO_STACK moveIndex].
  rewrite spread_id, removelast_last, splice_remove_insert by exact Hr.
  by destruct g.
Qed.

(** Indices that are valid one after the other: each below the number
    of records left when its turn comes. *)
Fixpoint deletable (indices : list nat) (n : nat) : Prop :=
  match indices with
  | [] => True
  | i :: rest => (i < n)%nat /\ deletable rest (n - 1)
  end.

Lemma delete_length (i : nat) (g : globals) :
  (i < length (g_DATA g))%nat ->
  length (g_DATA (apply toFixed6 (Delete i) g)) = (length (g_DATA g) - 1)%nat.
Proof.
  intros Hi. destruct (lookup_lt_is_Some_2 _ _ Hi) as [r Hr].
  unfold apply, of_page, to_page, _delete. cbn [DATA UNDO_STACK moveIndex].
  rewrite Hr. cbn [DATA g_DATA].
  rewrite splice_remove, length_app, length_take, length_drop by exact Hi.
  lia.
Qed.

(** X19: deletions are undone last first. After any number of
    deletions, each of a record that was there, as many clicks on Undo
    Delete restore the records, their order and the undo stack. *)
Theorem undo_is_last_in_first_out (indices : list nat) (g : globals) :
  deletable indices (length (g_DATA g)) ->
  Editor.session toFixed6
    (map Delete indices ++ repeat UndoDelete (length indices)) g = g.
Proof.
  revert g. induction indices as [|i rest IH]; intros g; [reflexivity|].
  intros [Hi Hrest]. cbn [map length].
  replace (repeat UndoDelete (S (length rest)))
    with (repeat UndoDelete (length rest) ++ [UndoDelete])
    by (change [UndoDelete] with (repeat UndoDelete 1);
        rewrite <- repeat_app; f_equal; lia).
  unfold Editor.session in *. cbn [app foldl].
  rewrite app_assoc, foldl_app. cbn [foldl].
  rewrite IH by (by rewrite delete_length).
  by apply delete_undo.
Qed.

(** X20: Undo Delete puts one record back, at the index it was deleted
    from or, when the list has become shorter than that, at its end:
    the list grows by one, the record is at that place, and without it
    the list is the one before. *)
Theorem undo_inserts_at_closest_index (p : page) (act : action) :
  last (UNDO_STACK p) = Some act ->
  type act = lit "delete" ->
  let pos := Nat.min (idx act) (length (DATA p)) in
  DATA (undoDelete p) !! pos = Some (a_rec act) /\
  length (DATA (undoDelete p)) = S (length (DATA p)) /\
  delete pos (DATA (undoDelete p)) = DATA p /\
  UNDO_STACK (undoDelete p) ++ [act] = UNDO_STACK p.
Proof.
  intros Hlast Htype pos. unfold undoDelete. rewrite Hlast, Htype.
  replace (Str.eqb (lit "delete") (lit "delete")) with true
    by (symmetry; by apply bool_decide_eq_true).
  cbn [DATA UNDO_STACK]. fold pos.
  assert (pos <= length (DATA p))%nat as Hpos by (unfold pos; lia).
  assert (length (take pos (DATA p)) = pos) as Htake
    by (rewrite length_take; lia).
  rewrite splice_insert by exact Hpos.
  split; [|split; [|split]].
  - rewrite lookup_app_r by lia. by rewrite Htake, Nat.sub_diag.
  - rewrite length_app, Htake. simpl. rewrite length_drop. lia.
  - transitivity (delete (length (take pos (DATA p)))
                    (take pos (DATA p) ++ a_rec act :: drop pos (DATA p)));
      [by rewrite Htake|].
    rewrite delete_middle. apply take_drop.
  - apply last_Some in Hlast as [l' ->]. by rewrite removelast_last.
Qed.

(** The status of a record as [init], [_setStatus] and the form leave
    it: one of the three words. *)
Definition canonical (r : rec) : Prop :=
  exists v, Status r = JStr v /\ v ∈ [lit "none"; lit "recent"; lit "current"].

Lemma normalizeStatus_canonical (s : jsval) :
  normalizeStatus s ∈ [lit "none"; lit "recent"; lit "current"].
Proof. rewrite normalizeStatus_classify. apply classify_canonical. Qed.

Lemma normalizeStatus_of_canonical (v : str) :
  v ∈ [lit "none"; lit "recent"; lit "current"] ->
  normalizeStatus (JStr v) = v.
Proof.
  intros Hv. rewrite normalizeStatus_classify, to_string_or_str.
  rewrite !elem_of_cons, elem_of_nil in Hv.
  destruct Hv as [->|[->|[->|[]]]]; by rewrite js_ascii.
Qed.

(** X21: with no status box checked nothing is shown, whatever the
    groups and the search; with the three boxes checked, no group
    selected and a blank search box every marker is shown, and the one
    [applyFilters] returns for Zoom to first is the first of the
    list. *)
Theorem applyFilters_extremes (ui : controls) (markers : list rec) :
  (statusChk ui = [] -> applyFilters ui markers = ([], None)) /\
  ((forall v, v ∈ [lit "none"; lit "recent"; lit "current"] ->
      v ∈ statusChk ui) ->
   groupSel ui = [] -> js_trim (searchBox ui) = [] ->
   applyFilters ui markers = (markers, head markers)).
Proof.
  split.
  - intros Hnone. unfold applyFilters.
    assert (filter (fun r => visiblePredicate ui r = true) markers = [])
      as ->; [|reflexivity].
    induction markers as [|r l IH]; [reflexivity|].
    rewrite filter_cons, decide_False; [exact IH|].
    unfold visiblePredicate. rewrite Hnone. simpl. discriminate.
  - intros Hall Hgroups Hsearch. unfold applyFilters.
    assert (filter (fun r => visiblePredicate ui r = true) markers = markers)
      as ->; [|reflexivity].
    induction markers as [|r l IH]; [reflexivity|].
    rewrite filter_cons, decide_True; [by rewrite IH|].
    assert (has (statusChk ui) (JStr (normalizeStatus (Status r))) = true)
      as Hs by (apply bool_decide_eq_true, Hall, normalizeStatus_canonical).
    unfold visiblePredicate.
    rewrite Hgroups, Hsearch, (js_toLowerCase_ascii [] eq_refl), !Hs.
    reflexivity.
Qed.

(** The statuses of the records and of the records on the undo stack
    are canonical, and the stack holds deletions only. *)
Definition tidy (g : globals) : Prop :=
  Forall canonical (g_DATA g) /\
  Forall (fun a => canonical (a_rec a) /\ type a = lit "delete") (g_UNDO g).

Lemma init_tidy (data : list rec) : tidy (init data).
Proof.
  split; [|constructor]. unfold init. cbn [g_DATA].
  apply Forall_forall. intros r Hr. apply list_elem_of_In in Hr.
  apply in_map_iff in Hr as (r0 & <- & _).
  eexists. split; [reflexivity|]. apply normalizeStatus_canonical.
Qed.

Lemma apply_tidy (e : edit) (g : globals) :
  tidy g -> tidy (apply toFixed6 e g).
Proof.
  intros [Hdata Hundo]. destruct e as [i status|i| |i|la lo|f]; simpl.
  - unfold _setStatus. destruct (g_DATA g !! i) as [r|] eqn:Hr;
      [|by split].
    split; [|exact Hundo]. cbn [g_DATA]. apply Forall_insert; [exact Hdata|].
    eexists. split; [reflexivity|]. apply normalizeStatus_canonical.
  - unfold of_page, to_page, _delete. cbn [DATA UNDO_STACK moveIndex].
    destruct (g_DATA g !! i) as [r|] eqn:Hr; [|by split].
    cbn [DATA UNDO_STACK]. split.
    + unfold splice. rewrite app_nil_l.
      apply Forall_app. split; [by apply Forall_take|by apply Forall_drop].
    + apply Forall_app. split; [exact Hundo|].
      constructor; [|constructor]. cbn [a_rec type].
      split; [|reflexivity]. rewrite spread_id.
      rewrite Forall_forall in Hdata. apply Hdata.
      by eapply list_elem_of_lookup_2.
  - unfold of_page, to_page, undoDelete. cbn [DATA UNDO_STACK moveIndex].
    destruct (last (g_UNDO g)) as [act|] eqn:Hlast; [|by split].
    apply last_Some in Hlast as [l' Hl']. rewrite Hl' in *.
    rewrite removelast_last.
    apply Forall_app in Hundo as [Hl Hact].
    apply Forall_singleton in Hact as [Hrec Htype].
    rewrite Htype.
    replace (Str.eqb (lit "delete") (lit "delete")) with true
      by (symmetry; by apply bool_decide_eq_true).
    cbn [DATA UNDO_STACK]. split; [|exact Hl].
    unfold splice. apply Forall_app. split; [by apply Forall_take|].
    apply Forall_app. split; [by constructor|by apply Forall_drop].
  - by split.
  - unfold mapClickHandler. destruct (g_moveIndex g) as [i|]; [|by split].
    destruct (g_DATA g !! i) as [r|] eqn:Hr; [|by split].
    split; [|exact Hundo]. cbn [g_DATA]. apply Forall_insert; [exact Hdata|].
    rewrite Forall_forall in Hdata.
    destruct (Hdata r) as (v & Hv & Hin); [by eapply list_elem_of_lookup_2|].
    exists v. by split.
  - split; [|exact Hundo]. unfold save. cbn [g_DATA].
    apply Forall_app. split; [exact Hdata|]. constructor; [|constructor].
    eexists. split; [reflexivity|]. apply normalizeStatus_canonical.
Qed.

Lemma session_tidy (edits : list edit) (g : globals) :
  tidy g -> tidy (Editor.session toFixed6 edits g).
Proof.
  revert g. induction edits as [|e edits IH]; intros g Hg; [exact Hg|].
  unfold Editor.session in *. cbn [foldl]. apply IH. by apply apply_tidy.
Qed.

(** X22: once [init] has run, the status of every record of the store
    is one of the strings [none], [recent], [current], whatever the
    user does afterwards: setting a status, deleting, undoing, moving a
    pin, clicking the map, adding a record. Reading it through
    [normalizeStatus] gives the string itself, and the export writes it
    without quotes. *)
Theorem statuses_stay_canonical (data : list rec) (edits : list edit)
    (i : nat) (r : rec) :
  g_DATA (Editor.session toFixed6 edits (init data)) !! i = Some r ->
  exists v,
    Status r = JStr v /\
    v ∈ [lit "none"; lit "recent"; lit "current"] /\
    normalizeStatus (Status r) = v /\
    cell (Status r) = v.
Proof.
  intros Hr.
  destruct (session_tidy edits (init data) (init_tidy data)) as [Hdata _].
  rewrite Forall_forall in Hdata.
  destruct (Hdata r) as (v & Hv & Hin); [by eapply list_elem_of_lookup_2|].
  exists v. rewrite Hv. split; [reflexivity|]. split; [exact Hin|].
  split; [by apply normalizeStatus_of_canonical|].
  rewrite !elem_of_cons, elem_of_nil in Hin.
  destruct Hin as [->|[->|[->|[]]]]; reflexivity.
Qed.

(** The records the session has added. *)
Fixpoint saves (edits : list edit) : nat :=
  match edits with
  | [] => 0
  | Save _ :: rest => S (saves rest)
  | _ :: rest => saves rest
  end.

Lemma apply_count (e : edit) (g : globals) :
  tidy g ->
  (length (g_DATA (apply toFixed6 e g)) + length (g_UNDO (apply toFixed6 e g))
   = length (g_DATA g) + length (g_UNDO g) + saves [e])%nat.
Proof.
  intros [Hdata Hundo]. destruct e as [i status|i| |i|la lo|f]; simpl.
  - unfold _setStatus. destruct (g_DATA g !! i) as [r|] eqn:Hr;
      cbn [g_DATA g_UNDO]; rewrite ?length_insert; unfold saves; simpl; lia.
  - unfold of_page, to_page, _delete. cbn [DATA UNDO_STACK moveIndex].
    destruct (g_DATA g !! i) as [r|] eqn:Hr;
      cbn [DATA UNDO_STACK g_DATA g_UNDO]; [|unfold saves; simpl; lia].
    assert (i < length (g_DATA g))%nat as Hi by (by eapply lookup_lt_Some).
    rewrite splice_remove, !length_app, length_take, length_drop by exact Hi.
    unfold saves. simpl. lia.
  - unfold of_page, to_page, undoDelete. cbn [DATA UNDO_STACK moveIndex].
    destruct (last (g_UNDO g)) as [act|] eqn:Hlast;
      [|cbn [DATA UNDO_STACK g_DATA g_UNDO]; unfold saves; simpl; lia].
    apply last_Some in Hlast as [l' Hl']. rewrite Hl' in *.
    rewrite removelast_last.
    apply Forall_app in Hundo as [Hl Hact].
    apply Forall_singleton in Hact as [Hrec Htype].
    rewrite Htype.
    replace (Str.eqb (lit "delete") (lit "delete")) with true
      by (symmetry; by apply bool_decide_eq_true).
    cbn [DATA UNDO_STACK g_DATA g_UNDO].
    rewrite splice_insert by lia.
    rewrite !length_app. simpl. rewrite length_take, length_drop.
    unfold saves. simpl. lia.
  - unfold saves. simpl. lia.
  - unfold mapClickHandler. destruct (g_moveIndex g) as [i|];
      [|unfold saves; simpl; lia].
    destruct (g_DATA g !! i) as [r|] eqn:Hr;
      cbn [g_DATA g_UNDO]; rewrite ?length_insert; unfold saves; simpl; lia.
  - unfold save. cbn [g_DATA g_UNDO]. rewrite length_app.
    unfold saves. simpl. lia.
Qed.

(** X23: editing loses no record and makes none up: at any moment of a
    session the records of the store and the records on the undo stack
    are together as many as the records the page started with and the
    records added with Save. *)
Theorem records_are_conserved (data : list rec) (edits : list edit) :
  (length (g_DATA (Editor.session toFixed6 edits (init data)))
   + length (g_UNDO (Editor.session toFixed6 edits (init data)))
   = length data + saves edits)%nat.
Proof.
  assert (forall g, tidy g ->
            (length (g_DATA (Editor.session toFixed6 edits g))
             + length (g_UNDO (Editor.session toFixed6 edits g))
             = length (g_DATA g) + length (g_UNDO g) + saves edits)%nat)
    as Hgen.
  { induction edits as [|e rest IH]; intros g Hg.
    - unfold saves. simpl. lia.
    - unfold Editor.session in *. cbn [foldl].
      rewrite IH by (by apply apply_tidy).
      rewrite apply_count by exact Hg.
      destruct e; simpl; lia. }
  rewrite Hgen by apply init_tidy.
  unfold init. cbn [g_DATA g_UNDO]. rewrite length_map. simpl. lia.
Qed.

(** X24: Move pin and the next click on the map move one record and
    nothing else: the record at the chosen index gets the coordinates of
    the click, rounded, and keeps its other fields; the other records,
    the length of the list and the undo stack stay; the pending move is
    gone, so a further click changes nothing. *)
Theorem move_commits_on_next_click (g : globals) (i : nat) (r : rec)
    (la ln la' ln' : jsnum) :
  g_DATA g !! i = Some r ->
  let g' := mapClickHandler toFixed6 la ln (_move i g) in
  g_DATA g' !! i
  = Some {| School := School r; Address := Address r; Group := Group r;
            lat := JNum (toFixed6 la); lon := JNum (toFixed6 ln);
            Status := Status r |} /\
  (forall j, j <> i -> g_DATA g' !! j = g_DATA g !! j) /\
  length (g_DATA g') = length (g_DATA g) /\
  g_UNDO g' = g_UNDO g /\
  g_moveIndex g' = None /\
  mapClickHandler toFixed6 la' ln' g' = g'.
Proof.
  intros Hr g'. unfold g', mapClickHandler, _move.
  cbn [g_moveIndex g_DATA g_UNDO]. rewrite Hr.
  cbn [g_moveIndex g_DATA g_UNDO].
  assert (i < length (g_DATA g))%nat as Hi by (by eapply lookup_lt_Some).
  split; [by apply list_lookup_insert_eq|].
  split; [intros j Hj; by apply list_lookup_insert_ne|].
  split; [apply length_insert|]. repeat split.
Qed.

End Edits.

(** A click position is taken as it is in the examples. *)
Definition exact : @jsnum sample_jsnum -> @jsnum sample_jsnum := fun x => x.

Definition started : globals := init [elm_ps; oak_ps; pine].

Lemma undo_is_last_in_first_out_witness :
  deletable [1; 1]%nat (length (g_DATA started)) /\
  Editor.session exact [Delete 1; Delete 1; UndoDelete; UndoDelete] started
  = started.
Proof.
  assert (deletable [1; 1]%nat (length (g_DATA started))) as Hok
    by (simpl; lia).
  split; [exact Hok|].
  exact (undo_is_last_in_first_out exact [1; 1]%nat started Hok).
Defined.

Definition shrunk : page :=
  {| DATA := [elm_ps];
     UNDO_STACK := [{| type := lit "delete"; a_rec := pine; idx := 5 |}];
     markers := [elm_ps]; moveIndex := None; toast := None |}.

Lemma undo_inserts_at_closest_index_witness :
  last (UNDO_STACK shrunk)
  = Some {| type := lit "delete"; a_rec := pine; idx := 5 |} /\
  DATA (undoDelete shrunk) !! 1%nat = Some pine /\
  length (DATA (undoDelete shrunk)) = 2%nat.
Proof.
  assert (last (UNDO_STACK shrunk)
          = Some {| type := lit "delete"; a_rec := pine; idx := 5 |})
    as Hlast by reflexivity.
  destruct (undo_inserts_at_closest_index shrunk _ Hlast eq_refl)
    as (Hat & Hlen & _).
  split; [exact Hlast|]. split; [exact Hat|exact Hlen].
Defined.

Lemma applyFilters_extremes_witness :
  let open := {| statusChk := [lit "none"; lit "recent"; lit "current"];
                 groupSel := []; searchBox := lit "  " |} in
  let closed := {| statusChk := []; groupSel := [lit "HRCE"];
                   searchBox := lit "elm" |} in
  applyFilters open [elm_ps; oak_ps] = ([elm_ps; oak_ps], Some elm_ps) /\
  applyFilters closed [elm_ps; oak_ps] = ([], None).
Proof.
  intros open closed. split.
  - apply (proj2 (applyFilters_extremes open [elm_ps; oak_ps])).
    + intros v Hv. exact Hv.
    + reflexivity.
    + reflexivity.
  - apply (proj1 (applyFilters_extremes closed [elm_ps; oak_ps])).
    reflexivity.
Defined.

Definition legacy : rec :=
  {| School := JStr (lit "Birch PS"); Address := JStr (lit "1 Birch Rd");
     Group := JNull; lat := JNum (Sample.Int 44);
     lon := JNum (Sample.Int (-63)); Status := JStr (lit "Active") |}.

Definition blank_form : form :=
  {| f_school := []; f_address := lit "2 Pine St"; f_group := [];
     f_lat := Sample.Int 45; f_lon := Sample.Int (-62); f_status := [] |}.

Lemma statuses_stay_canonical_witness :
  let edits := [SetStatus 0 (JStr (lit "BOTH")); Save blank_form; Delete 0;
                UndoDelete] in
  (exists r,
     g_DATA (Editor.session exact edits (init [legacy])) !! 1%nat = Some r /\
     School r = JStr (lit "New Location") /\
     normalizeStatus (Status r) = lit "none") /\
  (exists r,
     g_DATA (Editor.session exact edits (init [legacy])) !! 0%nat = Some r /\
     exists v, Status r = JStr v /\ cell (Status r) = v).
Proof.
  intros edits. split.
  - eexists. split; [vm_compute; reflexivity|].
    split; reflexivity.
  - destruct (g_DATA (Editor.session exact edits (init [legacy])) !! 0%nat)
      as [r|] eqn:Hr; [|vm_compute in Hr; discriminate Hr].
    exists r. split; [reflexivity|].
    destruct (statuses_stay_canonical exact [legacy] edits 0 r Hr)
      as (v & Hv & _ & _ & Hcell).
    exists v. split; [exact Hv|exact Hcell].
Defined.

Lemma move_commits_on_next_click_witness :
  g_DATA started !! 1%nat
  = Some {| School := JStr (lit "Oak PS");
            Address := JStr (lit "123 Main St, Apt 4");
            Group := JStr (lit "AVRCE"); lat := JNum (Sample.Int 45);
            lon := JNum (Sample.Int (-64)); Status := JStr (lit "recent") |} /\
  g_moveIndex (mapClickHandler exact (Sample.Int 46) (Sample.Int (-60))
                 (_move 1 started)) = None /\
  length (g_DATA (mapClickHandler exact (Sample.Int 46) (Sample.Int (-60))
                    (_move 1 started))) = 3%nat.
Proof.
  assert (g_DATA started !! 1%nat
          = Some {| School := JStr (lit "Oak PS");
                    Address := JStr (lit "123 Main St, Apt 4");
                    Group := JStr (lit "AVRCE"); lat := JNum (Sample.Int 45);
                    lon := JNum (Sample.Int (-64));
                    Status := JStr (lit "recent") |}) as Hr by reflexivity.
  destruct (move_commits_on_next_click exact started 1 _
              (Sample.Int 46) (Sample.Int (-60))
              (Sample.Int 0) (Sample.Int 0) Hr)
    as (_ & _ & Hlen & _ & Hmove & _).
  split; [exact Hr|]. split; [exact Hmove|]. exact Hlen.
Defined.

End EditorFacts.


(** ** What the export keeps *)

Module ExportFacts.
Import Str Js Csv CsvFacts SampleFacts SampleData.

Section Kept.
Context `{JsNumber}.

(** Read with the carriage return as a character like any other, the
    text of a store that is not empty gives the header and the printed
    fields back, whatever the fields hold. *)
Lemma export_parse (data : list rec) :
  data <> [] ->
  exists text,
    downloadCSV data = Some text /\
    read false Start [] [] [] text
    = Some (header_names :: map fields_of data).
Proof.
  intros Hne. apply export_read; [exact Hne|].
  apply Forall_forall. intros row _. apply Forall_forall. by intros t _.
Qed.

(** X25: the export keeps every printed field: two stores with the same
    exported text have the same number of records and, record by record
    and column by column, the same text in every field. What it does not
    keep is the kind of a value: a missing value and an empty string are
    both written as an empty field. *)
Theorem export_determines_fields (data1 data2 : list rec) :
  (downloadCSV data1 = downloadCSV data2 ->
   length data1 = length data2 /\
   map fields_of data1 = map fields_of data2) /\
  cell JNull = cell (JStr []) /\ cell JUndefined = cell (JStr []).
Proof.
  split; [|split; reflexivity].
  intros Hsame.
  assert (map fields_of data1 = map fields_of data2) as Hfields.
  { destruct data1 as [|r1 d1], data2 as [|r2 d2]; try discriminate;
      [reflexivity|].
    destruct (export_parse (r1 :: d1)) as (t1 & Ht1 & Hp1); [done|].
    destruct (export_parse (r2 :: d2)) as (t2 & Ht2 & Hp2); [done|].
    rewrite Ht1, Ht2 in Hsame. injection Hsame as ->.
    rewrite Hp1 in Hp2. congruence. }
  split; [|exact Hfields].
  apply (f_equal length) in Hfields. by rewrite !length_map in Hfields.
Qed.

End Kept.

(** [pine] with empty strings where it has [null] and [undefined]. *)
Definition blank_pine : rec :=
  {| School := JStr (lit "Pine Academy"); Address := JStr [];
     Group := JStr []; lat := JNum Sample.NaN; lon := JNum Sample.NaN;
     Status := JStr (lit "current") |}.

Lemma export_determines_fields_witness :
  [elm_ps; pine] <> [elm_ps; blank_pine] /\
  downloadCSV [elm_ps; pine] = downloadCSV [elm_ps; blank_pine] /\
  length [elm_ps; pine] = length [elm_ps; blank_pine] /\
  map fields_of [elm_ps; pine] = map fields_of [elm_ps; blank_pine].
Proof.
  assert (downloadCSV [elm_ps; pine] = downloadCSV [elm_ps; blank_pine])
    as Hsame by (vm_compute; reflexivity).
  split; [discriminate|]. split; [exact Hsame|].
  exact (proj1 (export_determines_fields [elm_ps; pine] [elm_ps; blank_pine])
           Hsame).
Defined.

End ExportFacts.


(** ** Whitespace in a normalized address (v9 lines 49-59) *)

Module CleanupFacts.
Import Str StrFacts Re Address TrimFacts.

Definition blank : ascii := " "%char.

Definition two_blanks : str := [blank; blank].

(** Every whitespace character of the string is a blank. *)
Definition only_blanks (s : str) : Prop :=
  Forall (fun c => Chars.py_isspace c = true -> c = blank) s.

Lemma leads_cons (c : ascii) (s : str) :
  starts_with [blank] (c :: s) = Ascii.eqb blank c.
Proof. cbn [starts_with]. apply andb_true_r. Qed.

Lemma two_blanks_cons (c : ascii) (s : str) :
  contains two_blanks (c :: s)
  = (Ascii.eqb blank c && starts_with [blank] s) || contains two_blanks s.
Proof. reflexivity. Qed.

Lemma other_not_blank (c : ascii) :
  Chars.py_isspace c = false -> Ascii.eqb blank c = false.
Proof.
  intros Hc. destruct (Ascii.eqb blank c) eqn:E; [|reflexivity].
  apply Ascii.eqb_eq in E. subst c. vm_compute in Hc. discriminate Hc.
Qed.

Lemma lstrip_by_length (p : ascii -> bool) (s : str) :
  (length (lstrip_by p s) <= length s)%nat.
Proof.
  induction s as [|c s IH]; [reflexivity|]. cbn [lstrip_by].
  destruct (p c); cbn [length]; lia.
Qed.

Lemma lstrip_by_suffix (p : ascii -> bool) (s : str) :
  exists a, s = a ++ lstrip_by p s.
Proof.
  induction s as [|c s [a IH]]; [by exists []|]. cbn [lstrip_by].
  destruct (p c); [|by exists []].
  exists (c :: a). cbn [app]. f_equal. exact IH.
Qed.

Lemma strip_by_infix (p : ascii -> bool) (s : str) :
  exists a b, s = a ++ strip_by p s ++ b.
Proof.
  unfold strip_by, rstrip_by.
  destruct (lstrip_by_suffix p s) as [a Ea].
  destruct (lstrip_by_suffix p (rev (lstrip_by p s))) as [b Eb].
  exists a, (rev b). rewrite <- rev_app_distr, <- Eb, rev_involutive.
  exact Ea.
Qed.

(** What [strip] leaves neither begins nor ends with a stripped
    character. *)
Lemma strip_by_ends (p : ascii -> bool) (s : str) (c : ascii) :
  head (strip_by p s) = Some c \/ last (strip_by p s) = Some c ->
  p c = false.
Proof.
  unfold strip_by, rstrip_by. intros [Hh|Hl].
  - destruct (lstrip_by_head p s) as [E|(x & rest & E & Hx)];
      rewrite E in Hh; [discriminate Hh|].
    cbn [rev] in Hh. rewrite lstrip_by_snoc_keep in Hh by exact Hx.
    rewrite rev_app_distr in Hh. injection Hh as <-. exact Hx.
  - destruct (lstrip_by_head p (rev (lstrip_by p s)))
      as [E|(x & rest & E & Hx)]; rewrite E in Hl; [discriminate Hl|].
    cbn [rev] in Hl. rewrite last_snoc in Hl. injection Hl as <-. exact Hx.
Qed.

(** A string that neither begins nor ends with such a character is left
    as it is. *)
Lemma strip_by_fixed (p : ascii -> bool) (u : str) :
  (forall c, head u = Some c \/ last u = Some c -> p c = false) ->
  strip_by p u = u.
Proof.
  intros Hends. unfold strip_by.
  assert (lstrip_by p u = u) as ->.
  { destruct u as [|x u']; [reflexivity|]. cbn [lstrip_by].
    by rewrite (Hends x) by (by left). }
  unfold rstrip_by. induction u as [|x u' _] using rev_ind; [reflexivity|].
  rewrite rev_app_distr. cbn [rev app lstrip_by].
  rewrite (Hends x) by (right; apply last_snoc).
  cbn [rev]. by rewrite rev_involutive.
Qed.

Lemma only_blanks_ends (u : str) (c : ascii) :
  only_blanks u -> head u = Some c \/ last u = Some c ->
  Chars.py_isspace c = true -> c = blank.
Proof.
  unfold only_blanks. intros Ho [Hh|Hl].
  - destruct u as [|x u']; [discriminate Hh|]. injection Hh as ->.
    by apply Forall_cons in Ho as [Hc _].
  - apply last_Some in Hl as [u' ->]. apply Forall_app in Ho as [_ Ho].
    by apply Forall_cons in Ho as [Hc _].
Qed.

Lemma infix_spec (a t b : str) :
  only_blanks (a ++ t ++ b) -> contains two_blanks (a ++ t ++ b) = false ->
  only_blanks t /\ contains two_blanks t = false.
Proof.
  unfold only_blanks. intros Ho Hc. split.
  - apply Forall_app in Ho as [_ Ho]. by apply Forall_app in Ho as [Ho _].
  - destruct (contains two_blanks t) eqn:E; [|reflexivity].
    rewrite <- Hc. symmetry. by apply contains_app_r, contains_app_l.
Qed.

(** *** The match of [\s+] *)

Definition here : cont := fun p' s' => Some (p', s').

(** The loop of [Star], as [run] has it. *)
Definition star_loop (icase : bool) (a : re) (k : cont)
    : nat -> option ascii -> str -> option (option ascii * str) :=
  fix loop (n : nat) (prev : option ascii) (s : str) {struct n} :=
    match n with
    | O => k prev s
    | S n' =>
        match run icase a prev s
                (fun p' s' =>
                   if (length s' <? length s)%nat
                   then loop n' p' s' else None) with
        | Some res => Some res
        | None => k prev s
        end
    end.

(** [\s*] takes all the whitespace there is. *)
Lemma ws_loop (n : nat) (prev : option ascii) (s : str) :
  (length s <= n)%nat ->
  exists p',
    star_loop false ws here n prev s
    = Some (p', lstrip_by Chars.py_isspace s).
Proof.
  revert prev s. induction n as [|n IH]; intros prev s Hn.
  - destruct s; [|cbn [length] in Hn; lia]. by exists prev.
  - destruct s as [|x s']; [by exists prev|].
    change (star_loop false ws here (S n) prev (x :: s'))
      with (match (if Chars.py_isspace x
                   then if (length s' <? length (x :: s'))%nat
                        then star_loop false ws here n (Some x) s'
                        else None
                   else None) with
            | Some res => Some res
            | None => here prev (x :: s')
            end).
    cbn [lstrip_by length] in *.
    destruct (Chars.py_isspace x) eqn:Hx; [|by exists prev].
    replace (length s' <? S (length s'))%nat with true
      by (symmetry; apply Nat.ltb_lt; lia).
    destruct (IH (Some x) s') as [p' ->]; [lia|]. by exists p'.
Qed.

Lemma ws_run_nil (prev : option ascii) :
  match_here false WS_RUN prev [] = None.
Proof. reflexivity. Qed.

Lemma ws_run_cons (prev : option ascii) (x : ascii) (s' : str) :
  match_here false WS_RUN prev (x :: s')
  = if Chars.py_isspace x
    then star_loop false ws here (length s') (Some x) s'
    else None.
Proof. reflexivity. Qed.

(** *** Line 53: every run of whitespace becomes one blank *)

Definition collapse (n : nat) (prev : option ascii) (s : str) : str :=
  sub_fuel n false WS_RUN [blank] prev s.

Lemma collapse_nil (n : nat) (prev : option ascii) : collapse n prev [] = [].
Proof. destruct n; reflexivity. Qed.

Lemma collapse_space (n : nat) (prev : option ascii) (x : ascii) (s' : str) :
  Chars.py_isspace x = true -> (length s' <= n)%nat ->
  exists p',
    collapse (S n) prev (x :: s')
    = blank :: collapse n p' (lstrip_by Chars.py_isspace s').
Proof.
  intros Hx Hn. unfold collapse. cbn [sub_fuel]. rewrite ws_run_cons, Hx.
  destruct (ws_loop (length s') (Some x) s') as [p' ->]; [lia|].
  pose proof (lstrip_by_length Chars.py_isspace s') as Hlen.
  replace (length (lstrip_by Chars.py_isspace s') <? length (x :: s'))%nat
    with true by (symmetry; apply Nat.ltb_lt; cbn [length]; lia).
  by exists p'.
Qed.

Lemma collapse_other (n : nat) (prev : option ascii) (x : ascii) (s' : str) :
  Chars.py_isspace x = false ->
  collapse (S n) prev (x :: s') = x :: collapse n (Some x) s'.
Proof.
  intros Hx. unfold collapse. cbn [sub_fuel]. by rewrite ws_run_cons, Hx.
Qed.

(** After a run of whitespace the collapsed text does not go on with a
    blank. *)
Lemma collapse_leads (n : nat) (prev : option ascii) (s : str) :
  (length s <= n)%nat ->
  starts_with [blank] (collapse n prev (lstrip_by Chars.py_isspace s))
  = false.
Proof.
  intros Hn. pose proof (lstrip_by_length Chars.py_isspace s) as Hlen.
  destruct (lstrip_by_head Chars.py_isspace s) as [E|(c & rest & E & Hc)];
    rewrite E in *.
  - by rewrite collapse_nil.
  - cbn [length] in Hlen. destruct n as [|n]; [lia|].
    rewrite collapse_other, leads_cons by exact Hc.
    by apply other_not_blank.
Qed.

Lemma collapse_spec (n : nat) (prev : option ascii) (s : str) :
  (length s <= n)%nat ->
  only_blanks (collapse n prev s) /\
  contains two_blanks (collapse n prev s) = false.
Proof.
  revert prev s. induction n as [|n IH]; intros prev s Hn.
  - destruct s; [|cbn [length] in Hn; lia]. rewrite collapse_nil.
    split; [constructor|reflexivity].
  - destruct s as [|x s'];
      [rewrite collapse_nil; split; [constructor|reflexivity]|].
    cbn [length] in Hn.
    pose proof (lstrip_by_length Chars.py_isspace s') as Hlen.
    destruct (Chars.py_isspace x) eqn:Hx.
    + destruct (collapse_space n prev x s' Hx) as [p' ->]; [lia|].
      destruct (IH p' (lstrip_by Chars.py_isspace s')) as [Ho Ht]; [lia|].
      split; [constructor; [done|exact Ho]|].
      rewrite two_blanks_cons, collapse_leads by lia.
      by rewrite andb_false_r.
    + rewrite collapse_other by exact Hx.
      destruct (IH (Some x) s') as [Ho Ht]; [lia|]. split.
      * constructor; [|exact Ho]. intros Hx'. congruence.
      * by rewrite two_blanks_cons, other_not_blank by exact Hx.
Qed.

(** *** Lines 49-53 *)

Lemma cleanup_spec (addr : str) :
  only_blanks (cleanup addr) /\
  contains two_blanks (cleanup addr) = false /\
  forall c, head (cleanup addr) = Some c \/ last (cleanup addr) = Some c ->
            mem c (lit ", ") = false.
Proof.
  unfold cleanup. generalize (sub true STN_PAT (lit "Station")
    (sub true RR_PAT [] (sub true POBOX_PAT [] (strip addr)))).
  intros s. unfold sub.
  change (sub_fuel (length s) false WS_RUN (lit " ") None s)
    with (collapse (length s) None s).
  destruct (collapse_spec (length s) None s) as [Ho Ht]; [lia|].
  revert Ho Ht. generalize (collapse (length s) None s). intros t Ho Ht.
  unfold strip_chars. set (p := fun c => mem c (lit ", ")).
  destruct (strip_by_infix p t) as (a & b & E).
  destruct (infix_spec a (strip_by p t) b) as [Ho' Ht'];
    [by rewrite <- E|by rewrite <- E|].
  pose proof (strip_by_ends p t) as Hends.
  assert (strip (strip_by p t) = strip_by p t) as ->.
  { apply strip_by_fixed. intros c Hc.
    destruct (Chars.py_isspace c) eqn:Hsp; [|reflexivity].
    rewrite (only_blanks_ends _ _ Ho' Hc Hsp) in Hc.
    apply Hends in Hc. discriminate Hc. }
  split; [exact Ho'|]. split; [exact Ht'|]. exact Hends.
Qed.

(** *** Lines 54-59 *)

Lemma replace_only_blanks (n : nat) (old new s : str) :
  only_blanks new -> only_blanks s -> only_blanks (replace_fuel n old new s).
Proof.
  unfold only_blanks. intros Hnew. revert s.
  induction n as [|n IH]; intros s Hs; [exact Hs|]. cbn [replace_fuel].
  destruct s as [|c s']; [constructor|].
  destruct (starts_with old (c :: s')).
  - apply Forall_app. split; [exact Hnew|]. apply IH. by apply Forall_drop.
  - apply Forall_cons in Hs as [Hc Hs]. constructor; [exact Hc|]. by apply IH.
Qed.

Lemma only_blanks_lit_region : only_blanks (lit ", Nova Scotia").
Proof.
  repeat (apply Forall_cons_2;
          [intros Hc; first [reflexivity|vm_compute in Hc; discriminate Hc]|]).
  constructor.
Qed.

Lemma only_blanks_lit_country : only_blanks (lit ", Canada").
Proof.
  repeat (apply Forall_cons_2;
          [intros Hc; first [reflexivity|vm_compute in Hc; discriminate Hc]|]).
  constructor.
Qed.

Lemma replace_ns_leads (n : nat) (s : str) :
  starts_with [blank]
    (replace_fuel n (lit " NS") (lit ", Nova Scotia") s) = true ->
  starts_with [blank] s = true.
Proof.
  destruct n as [|n]; [done|]. cbn [replace_fuel].
  destruct s as [|c s']; [done|].
  destruct (starts_with (lit " NS") (c :: s')).
  - generalize (replace_fuel n (lit " NS") (lit ", Nova Scotia")
                  (drop (length (lit " NS")) (c :: s'))).
    intros X HX. vm_compute in HX. discriminate HX.
  - by rewrite !leads_cons.
Qed.

Lemma replace_ns_two_blanks (n : nat) (s : str) :
  contains two_blanks s = false ->
  contains two_blanks
    (replace_fuel n (lit " NS") (lit ", Nova Scotia") s) = false.
Proof.
  revert s. induction n as [|n IH]; intros s Hs; [exact Hs|].
  cbn [replace_fuel]. destruct s as [|c s']; [reflexivity|].
  destruct (starts_with (lit " NS") (c :: s')) eqn:Est.
  - destruct (starts_with_inv _ _ Est) as [r Er]. rewrite Er in *.
    rewrite drop_app_length.
    assert (contains two_blanks r = false) as Hr.
    { destruct (contains two_blanks r) eqn:E; [|reflexivity].
      rewrite <- Hs. symmetry. by apply contains_app_r. }
    specialize (IH r Hr). revert IH.
    generalize (replace_fuel n (lit " NS") (lit ", Nova Scotia") r).
    intros X HX. simpl. exact HX.
  - rewrite two_blanks_cons in Hs |- *.
    apply orb_false_iff in Hs as [Hlead Hs]. rewrite (IH s' Hs), orb_false_r.
    destruct (Ascii.eqb blank c); [|reflexivity]. cbn [andb] in *.
    destruct (starts_with [blank]
                (replace_fuel n (lit " NS") (lit ", Nova Scotia") s'))
      eqn:E; [|reflexivity].
    apply replace_ns_leads in E. congruence.
Qed.

Lemma two_blanks_app_comma (t r : str) :
  contains two_blanks t = false ->
  contains two_blanks (","%char :: r) = false ->
  contains two_blanks (t ++ ","%char :: r) = false.
Proof.
  intros Ht Hr. induction t as [|c t IH]; [exact Hr|].
  rewrite two_blanks_cons in Ht. apply orb_false_iff in Ht as [Hlead Ht].
  change ((c :: t) ++ ","%char :: r) with (c :: (t ++ ","%char :: r)).
  rewrite two_blanks_cons, (IH Ht), orb_false_r.
  destruct (Ascii.eqb blank c); [|reflexivity]. cbn [andb] in *.
  destruct t as [|x t]; [reflexivity|exact Hlead].
Qed.

Lemma add_tokens_spec (s : str) :
  only_blanks s -> contains two_blanks s = false ->
  only_blanks (add_tokens s) /\ contains two_blanks (add_tokens s) = false.
Proof.
  intros Ho Ht. unfold add_tokens.
  set (s1 := if negb (contains region s) && _ then _ else s).
  assert (only_blanks s1 /\ contains two_blanks s1 = false) as [Ho1 Ht1].
  { subst s1. destruct (negb (contains region s) && _); [|by split].
    split; [|by apply replace_ns_two_blanks].
    apply replace_only_blanks; [apply only_blanks_lit_region|exact Ho]. }
  clearbody s1.
  set (s2 := if negb (contains region s1) then _ else s1).
  assert (only_blanks s2 /\ contains two_blanks s2 = false) as [Ho2 Ht2].
  { subst s2. destruct (negb (contains region s1)); [|by split]. split.
    - apply Forall_app. split; [exact Ho1|apply only_blanks_lit_region].
    - by apply (two_blanks_app_comma s1 (lit " Nova Scotia")). }
  clearbody s2.
  destruct (negb (contains country s2)); [|by split]. split.
  - apply Forall_app. split; [exact Ho2|apply only_blanks_lit_country].
  - by apply (two_blanks_app_comma s2 (lit " Canada")).
Qed.

(** X26: whitespace in a normalized address. Whatever the address
    holds (tabs, line feeds, runs of blanks), every whitespace character
    of the result is a blank and no two blanks follow each other; and
    before region and country are added the cleaned address neither
    begins nor ends with a blank or a comma. *)
Theorem normalize_address_has_single_blanks `{PyFloat} (v : pyval) (s : str) :
  Forall (fun c => Chars.py_isspace c = true -> c = " "%char)
    (normalize_address v) /\
  contains (lit "  ") (normalize_address v) = false /\
  (forall c, head (cleanup s) = Some c \/ last (cleanup s) = Some c ->
             mem c (lit ", ") = false).
Proof.
  split; [|split].
  - destruct v; try constructor.
    destruct (cleanup_spec s0) as (Ho & Ht & _).
    exact (proj1 (add_tokens_spec _ Ho Ht)).
  - destruct v; try reflexivity.
    destruct (cleanup_spec s0) as (Ho & Ht & _).
    exact (proj2 (add_tokens_spec _ Ho Ht)).
  - exact (proj2 (proj2 (cleanup_spec s))).
Qed.

End CleanupFacts.
